(** * The vault: entity store and request handlers

    A shallow embedding of the in-memory entity store ([MemStorage]), of the
    table schema it stores and of the REST handlers that drive it, followed by
    the properties of the playlist/track ownership model.

    Conventions of the embedding.
    - A JavaScript [Map] keeps its entries in insertion order; [Array.from
      (m.values())] and [find] observe that order, so a map is an association
      list ([JSMap.t]) and not an unordered finite map.
    - Numbers that the code uses as ids, positions and durations are integers;
      they are modelled as [Z].  (A JavaScript number is a double; the
      counters stay far below 2^53, where doubles are exact.)
    - A promise returned by an [async] method of the store is already settled
      when the caller resumes; a method is a function from the store to the
      new store and the value (or the thrown error).
    - [new Date()] reads the clock; the reading is an argument.  *)

From Stdlib Require Import ZArith List String Bool Lia Permutation Sorted.
Import ListNotations.
Local Open Scope string_scope.
Local Open Scope Z_scope.

(** ** JavaScript [Map] with integer keys *)

Module JSMap.

Definition t (V : Type) : Type := list (Z * V).

Section Ops.
Context {V : Type}.

Definition empty : t V := [].

(** [m.get(k)] *)
Fixpoint get (k : Z) (m : t V) : option V :=
  match m with
  | [] => None
  | (k', v) :: m' => if k =? k' then Some v else get k m'
  end.

(** [m.has(k)] *)
Definition has (k : Z) (m : t V) : bool :=
  match get k m with Some _ => true | None => false end.

(** [m.set(k, v)]: an existing key keeps its place, a new key goes last. *)
Fixpoint set (k : Z) (v : V) (m : t V) : t V :=
  match m with
  | [] => [(k, v)]
  | (k', v') :: m' =>
      if k =? k' then (k, v) :: m' else (k', v') :: set k v m'
  end.

(** The entries left by [m.delete(k)]. *)
Definition remove (k : Z) (m : t V) : t V :=
  filter (fun e => negb (k =? fst e)) m.

(** [m.delete(k)]: the new map and whether the key was present. *)
Definition delete (k : Z) (m : t V) : t V * bool :=
  (remove k m, has k m).

Definition keys (m : t V) : list Z := map fst m.

(** [Array.from(m.values())] *)
Definition values (m : t V) : list V := map snd m.
End Ops.

End JSMap.

(** ** Schema: the rows of the five tables and their insert types *)

Module User.
Record t := mk {
  id : Z;
  username : string;
  password : string;
  email : option string;
  phone : option string;
  fullName : option string;
  avatarColor : option string }.
End User.

Module InsertUser.
Record t := mk {
  username : string;
  password : string;
  email : option string;
  phone : option string;
  fullName : option string;
  avatarColor : option string }.
End InsertUser.

(** [Partial<InsertUser>]: [None] is a field that is not provided. *)
Module PartialUser.
Record t := mk {
  username : option string;
  password : option string;
  email : option (option string);
  phone : option (option string);
  fullName : option (option string);
  avatarColor : option (option string) }.
End PartialUser.

Module Category.
Record t := mk {
  id : Z;
  name : string;
  icon : string;
  color : string;
  userId : Z }.
End Category.

Module InsertCategory.
Record t := mk {
  name : string;
  icon : string;
  color : string;
  userId : Z }.
End InsertCategory.

Module PartialCategory.
Record t := mk {
  name : option string;
  icon : option string;
  color : option string;
  userId : option Z }.
End PartialCategory.

Module Playlist.
Record t := mk {
  id : Z;
  name : string;
  userId : Z;
  color : string;
  icon : string }.
End Playlist.

Module InsertPlaylist.
Record t := mk {
  name : string;
  userId : Z;
  color : string;
  icon : string }.
End InsertPlaylist.

Module PartialPlaylist.
Record t := mk {
  name : option string;
  userId : option Z;
  color : option string;
  icon : option string }.
End PartialPlaylist.

Module Track.
Record t := mk {
  id : Z;
  name : string;
  userId : Z;
  categoryId : option Z;
  duration : Z;
  filePath : string;
  createdAt : Z }.
End Track.

Module InsertTrack.
Record t := mk {
  name : string;
  userId : Z;
  categoryId : option Z;
  duration : Z;
  filePath : string }.
End InsertTrack.

Module PartialTrack.
Record t := mk {
  name : option string;
  userId : option Z;
  categoryId : option (option Z);
  duration : option Z;
  filePath : option string }.
End PartialTrack.

Module PlaylistTrack.
Record t := mk {
  id : Z;
  playlistId : Z;
  trackId : Z;
  position : Z }.
End PlaylistTrack.

Module InsertPlaylistTrack.
Record t := mk {
  playlistId : Z;
  trackId : Z;
  position : Z }.
End InsertPlaylistTrack.

(** An element of the array returned by [getPlaylistTracks]. *)
Module TrackAt.
Record t := mk {
  track : Track.t;
  position : Z }.
End TrackAt.

(** ** Thrown errors *)

(** The two [Error]s that the store throws, named after their messages
    ("Playlist not found: <id>" and "Track not found: <id>"). *)
Inductive Error :=
| PlaylistNotFound (id : Z)
| TrackNotFound (id : Z).

Inductive result (A : Type) :=
| Ok (a : A)
| Throw (e : Error).
Arguments Ok {A} a.
Arguments Throw {A} e.

Definition bind {A B} (r : result A) (k : A -> result B) : result B :=
  match r with Ok a => k a | Throw e => Throw e end.

Notation "x <- r ;; k" := (bind r (fun x => k))
  (at level 61, r at next level, right associativity).

(** [xs.map(f)] for an [f] that may throw: the first throw aborts the map. *)
Fixpoint map_throw {A B} (f : A -> result B) (xs : list A) : result (list B) :=
  match xs with
  | [] => Ok []
  | x :: xs' => y <- f x ;; ys <- map_throw f xs' ;; Ok (y :: ys)
  end.

(** [{ ...row, ...updates }] at one field: a provided field wins. *)
Definition merge {A} (old : A) (upd : option A) : A :=
  match upd with Some v => v | None => old end.

(** [xs.find(p)] *)
Definition find_first {A} (p : A -> bool) (xs : list A) : option A :=
  List.find p xs.

(** [xs.sort(cmp)]: the sort is stable; [x] goes before [y] when
    [cmp x y <= 0]. *)
Fixpoint sort_insert {A} (cmp : A -> A -> Z) (x : A) (l : list A) : list A :=
  match l with
  | [] => [x]
  | y :: l' => if cmp x y <=? 0 then x :: l else y :: sort_insert cmp x l'
  end.

Definition sort {A} (cmp : A -> A -> Z) (l : list A) : list A :=
  fold_right (sort_insert cmp) [] l.

(** [Math.max(...xs)] for a non-empty [xs]. *)
Definition math_max (x : Z) (xs : list Z) : Z := fold_left Z.max xs x.

(** ** The in-memory store *)

Module MemStorage.

Record t := mk {
  users : JSMap.t User.t;
  categories : JSMap.t Category.t;
  playlists : JSMap.t Playlist.t;
  tracks : JSMap.t Track.t;
  playlistTracks : JSMap.t PlaylistTrack.t;
  userId : Z;
  categoryId : Z;
  playlistId : Z;
  trackId : Z;
  playlistTrackId : Z }.

(** The fields as the constructor sets them, before the default data. *)
Definition fresh : t :=
  mk JSMap.empty JSMap.empty JSMap.empty JSMap.empty JSMap.empty 1 1 1 1 1.

(** *** Users *)

Definition getUser (this : t) (id : Z) : option User.t :=
  JSMap.get id (users this).

Definition getUserByUsername (this : t) (username : string) : option User.t :=
  find_first (fun user => String.eqb (User.username user) username)
             (JSMap.values (users this)).

Definition createUser (this : t) (insertUser : InsertUser.t) : t * User.t :=
  let id := userId this in
  let user :=
    User.mk id (InsertUser.username insertUser) (InsertUser.password insertUser)
      (InsertUser.email insertUser) (InsertUser.phone insertUser)
      (InsertUser.fullName insertUser) (InsertUser.avatarColor insertUser) in
  (mk (JSMap.set id user (users this)) (categories this) (playlists this)
      (tracks this) (playlistTracks this)
      (id + 1) (categoryId this) (playlistId this) (trackId this)
      (playlistTrackId this),
   user).

Definition updateUser (this : t) (id : Z) (updates : PartialUser.t)
  : t * option User.t :=
  match JSMap.get id (users this) with
  | None => (this, None)
  | Some user =>
      let updatedUser :=
        User.mk (User.id user)
          (merge (User.username user) (PartialUser.username updates))
          (merge (User.password user) (PartialUser.password updates))
          (merge (User.email user) (PartialUser.email updates))
          (merge (User.phone user) (PartialUser.phone updates))
          (merge (User.fullName user) (PartialUser.fullName updates))
          (merge (User.avatarColor user) (PartialUser.avatarColor updates)) in
      (mk (JSMap.set id updatedUser (users this)) (categories this)
          (playlists this) (tracks this) (playlistTracks this)
          (userId this) (categoryId this) (playlistId this) (trackId this)
          (playlistTrackId this),
       Some updatedUser)
  end.

(** *** Categories *)

Definition getCategories (this : t) (userId : Z) : list Category.t :=
  filter (fun category => Category.userId category =? userId)
         (JSMap.values (categories this)).

Definition getCategoryById (this : t) (id : Z) : option Category.t :=
  JSMap.get id (categories this).

Definition createCategory (this : t) (insertCategory : InsertCategory.t)
  : t * Category.t :=
  let id := categoryId this in
  let category :=
    Category.mk id (InsertCategory.name insertCategory)
      (InsertCategory.icon insertCategory) (InsertCategory.color insertCategory)
      (InsertCategory.userId insertCategory) in
  (mk (users this) (JSMap.set id category (categories this)) (playlists this)
      (tracks this) (playlistTracks this)
      (userId this) (id + 1) (playlistId this) (trackId this)
      (playlistTrackId this),
   category).

Definition updateCategory (this : t) (id : Z) (updates : PartialCategory.t)
  : t * option Category.t :=
  match JSMap.get id (categories this) with
  | None => (this, None)
  | Some category =>
      let updatedCategory :=
        Category.mk (Category.id category)
          (merge (Category.name category) (PartialCategory.name updates))
          (merge (Category.icon category) (PartialCategory.icon updates))
          (merge (Category.color category) (PartialCategory.color updates))
          (merge (Category.userId category) (PartialCategory.userId updates)) in
      (mk (users this) (JSMap.set id updatedCategory (categories this))
          (playlists this) (tracks this) (playlistTracks this)
          (userId this) (categoryId this) (playlistId this) (trackId this)
          (playlistTrackId this),
       Some updatedCategory)
  end.

Definition deleteCategory (this : t) (id : Z) : t * bool :=
  let (categories', existed) := JSMap.delete id (categories this) in
  (mk (users this) categories' (playlists this) (tracks this)
      (playlistTracks this)
      (userId this) (categoryId this) (playlistId this) (trackId this)
      (playlistTrackId this),
   existed).

(** *** Playlists *)

Definition getPlaylists (this : t) (userId : Z) : list Playlist.t :=
  filter (fun playlist => Playlist.userId playlist =? userId)
         (JSMap.values (playlists this)).

Definition getPlaylistById (this : t) (id : Z) : option Playlist.t :=
  JSMap.get id (playlists this).

Definition createPlaylist (this : t) (insertPlaylist : InsertPlaylist.t)
  : t * Playlist.t :=
  let id := playlistId this in
  let playlist :=
    Playlist.mk id (InsertPlaylist.name insertPlaylist)
      (InsertPlaylist.userId insertPlaylist)
      (InsertPlaylist.color insertPlaylist)
      (InsertPlaylist.icon insertPlaylist) in
  (mk (users this) (categories this) (JSMap.set id playlist (playlists this))
      (tracks this) (playlistTracks this)
      (userId this) (categoryId this) (id + 1) (trackId this)
      (playlistTrackId this),
   playlist).

Definition updatePlaylist (this : t) (id : Z) (updates : PartialPlaylist.t)
  : t * option Playlist.t :=
  match JSMap.get id (playlists this) with
  | None => (this, None)
  | Some playlist =>
      let updatedPlaylist :=
        Playlist.mk (Playlist.id playlist)
          (merge (Playlist.name playlist) (PartialPlaylist.name updates))
          (merge (Playlist.userId playlist) (PartialPlaylist.userId updates))
          (merge (Playlist.color playlist) (PartialPlaylist.color updates))
          (merge (Playlist.icon playlist) (PartialPlaylist.icon updates)) in
      (mk (users this) (categories this)
          (JSMap.set id updatedPlaylist (playlists this))
          (tracks this) (playlistTracks this)
          (userId this) (categoryId this) (playlistId this) (trackId this)
          (playlistTrackId this),
       Some updatedPlaylist)
  end.

(** The cascade of [deletePlaylist] and [deleteTrack]: the rows are
    collected from a snapshot of the values, then deleted one by one under
    their own [id]. *)
Definition deleteRows (doomed : PlaylistTrack.t -> bool)
  (rows : JSMap.t PlaylistTrack.t) : JSMap.t PlaylistTrack.t :=
  fold_left (fun m pt => JSMap.remove (PlaylistTrack.id pt) m)
            (filter doomed (JSMap.values rows)) rows.

Definition deletePlaylist (this : t) (id : Z) : t * bool :=
  let playlistTracks' :=
    deleteRows (fun pt => PlaylistTrack.playlistId pt =? id)
               (playlistTracks this) in
  let (playlists', existed) := JSMap.delete id (playlists this) in
  (mk (users this) (categories this) playlists' (tracks this) playlistTracks'
      (userId this) (categoryId this) (playlistId this) (trackId this)
      (playlistTrackId this),
   existed).

(** *** Tracks *)

Definition getTracks (this : t) (userId : Z) : list Track.t :=
  filter (fun track => Track.userId track =? userId)
         (JSMap.values (tracks this)).

Definition getTrackById (this : t) (id : Z) : option Track.t :=
  JSMap.get id (tracks this).

(** [track.categoryId === categoryId]: a [null] category equals no number. *)
Definition categoryId_is (categoryId : Z) (track : Track.t) : bool :=
  match Track.categoryId track with
  | Some c => c =? categoryId
  | None => false
  end.

Definition getTracksByCategory (this : t) (categoryId : Z) : list Track.t :=
  filter (categoryId_is categoryId) (JSMap.values (tracks this)).

(** [now] is the reading of [new Date()]. *)
Definition createTrack (this : t) (insertTrack : InsertTrack.t) (now : Z)
  : t * Track.t :=
  let id := trackId this in
  let createdAt := now in
  let track :=
    Track.mk id (InsertTrack.name insertTrack) (InsertTrack.userId insertTrack)
      (InsertTrack.categoryId insertTrack) (InsertTrack.duration insertTrack)
      (InsertTrack.filePath insertTrack) createdAt in
  (mk (users this) (categories this) (playlists this)
      (JSMap.set id track (tracks this)) (playlistTracks this)
      (userId this) (categoryId this) (playlistId this) (id + 1)
      (playlistTrackId this),
   track).

Definition updateTrack (this : t) (id : Z) (updates : PartialTrack.t)
  : t * option Track.t :=
  match JSMap.get id (tracks this) with
  | None => (this, None)
  | Some track =>
      let updatedTrack :=
        Track.mk (Track.id track)
          (merge (Track.name track) (PartialTrack.name updates))
          (merge (Track.userId track) (PartialTrack.userId updates))
          (merge (Track.categoryId track) (PartialTrack.categoryId updates))
          (merge (Track.duration track) (PartialTrack.duration updates))
          (merge (Track.filePath track) (PartialTrack.filePath updates))
          (Track.createdAt track) in
      (mk (users this) (categories this) (playlists this)
          (JSMap.set id updatedTrack (tracks this)) (playlistTracks this)
          (userId this) (categoryId this) (playlistId this) (trackId this)
          (playlistTrackId this),
       Some updatedTrack)
  end.

Definition deleteTrack (this : t) (id : Z) : t * bool :=
  let playlistTracks' :=
    deleteRows (fun pt => PlaylistTrack.trackId pt =? id)
               (playlistTracks this) in
  let (tracks', existed) := JSMap.delete id (tracks this) in
  (mk (users this) (categories this) (playlists this) tracks' playlistTracks'
      (userId this) (categoryId this) (playlistId this) (trackId this)
      (playlistTrackId this),
   existed).

(** *** Playlist tracks *)

(** The callback of the [map] in [getPlaylistTracks]. *)
Definition resolveTrack (this : t) (pt : PlaylistTrack.t) : result TrackAt.t :=
  match JSMap.get (PlaylistTrack.trackId pt) (tracks this) with
  | None => Throw (TrackNotFound (PlaylistTrack.trackId pt))
  | Some track => Ok (TrackAt.mk track (PlaylistTrack.position pt))
  end.

Definition getPlaylistTracks (this : t) (playlistId : Z)
  : result (list TrackAt.t) :=
  let playlistTracksArray :=
    filter (fun pt => PlaylistTrack.playlistId pt =? playlistId)
           (JSMap.values (playlistTracks this)) in
  result <- map_throw (resolveTrack this) playlistTracksArray ;;
  Ok (sort (fun a b => TrackAt.position a - TrackAt.position b) result).

(** The predicate of the three [find]s over the link rows. *)
Definition links (playlistId trackId : Z) (pt : PlaylistTrack.t) : bool :=
  (PlaylistTrack.playlistId pt =? playlistId)
  && (PlaylistTrack.trackId pt =? trackId).

Definition addTrackToPlaylist (this : t)
  (insertPlaylistTrack : InsertPlaylistTrack.t) : t * result PlaylistTrack.t :=
  match JSMap.get (InsertPlaylistTrack.playlistId insertPlaylistTrack)
                  (playlists this) with
  | None =>
      (this,
       Throw (PlaylistNotFound
                (InsertPlaylistTrack.playlistId insertPlaylistTrack)))
  | Some playlist =>
      match JSMap.get (InsertPlaylistTrack.trackId insertPlaylistTrack)
                      (tracks this) with
      | None =>
          (this,
           Throw (TrackNotFound
                    (InsertPlaylistTrack.trackId insertPlaylistTrack)))
      | Some track =>
          match find_first
                  (links (InsertPlaylistTrack.playlistId insertPlaylistTrack)
                         (InsertPlaylistTrack.trackId insertPlaylistTrack))
                  (JSMap.values (playlistTracks this)) with
          | Some existing => (this, Ok existing)
          | None =>
              let id := playlistTrackId this in
              let playlistTrack :=
                PlaylistTrack.mk id
                  (InsertPlaylistTrack.playlistId insertPlaylistTrack)
                  (InsertPlaylistTrack.trackId insertPlaylistTrack)
                  (InsertPlaylistTrack.position insertPlaylistTrack) in
              (mk (users this) (categories this) (playlists this)
                  (tracks this)
                  (JSMap.set id playlistTrack (playlistTracks this))
                  (userId this) (categoryId this) (playlistId this)
                  (trackId this) (id + 1),
               Ok playlistTrack)
          end
      end
  end.

Definition removeTrackFromPlaylist (this : t) (playlistId trackId : Z)
  : t * bool :=
  match find_first (links playlistId trackId)
                   (JSMap.values (playlistTracks this)) with
  | None => (this, false)
  | Some playlistTrack =>
      let (playlistTracks', existed) :=
        JSMap.delete (PlaylistTrack.id playlistTrack) (playlistTracks this) in
      (mk (users this) (categories this) (playlists this) (tracks this)
          playlistTracks'
          (MemStorage.userId this) (categoryId this) (MemStorage.playlistId this)
          (MemStorage.trackId this) (playlistTrackId this),
       existed)
  end.

(** [playlistTrack.position = newPosition] writes through the object that
    [find] returned, which is the one the map holds: the first row that
    satisfies [p] changes in place. *)
Fixpoint assignFirst (p : PlaylistTrack.t -> bool)
  (f : PlaylistTrack.t -> PlaylistTrack.t) (rows : JSMap.t PlaylistTrack.t)
  : JSMap.t PlaylistTrack.t :=
  match rows with
  | [] => []
  | (k, pt) :: rows' =>
      if p pt then (k, f pt) :: rows' else (k, pt) :: assignFirst p f rows'
  end.

Definition updateTrackPosition (this : t) (playlistId trackId newPosition : Z)
  : t * bool :=
  match find_first (links playlistId trackId)
                   (JSMap.values (playlistTracks this)) with
  | None => (this, false)
  | Some found =>
      let reposition pt :=
        PlaylistTrack.mk (PlaylistTrack.id pt) (PlaylistTrack.playlistId pt)
          (PlaylistTrack.trackId pt) newPosition in
      let playlistTrack := reposition found in
      let rows :=
        assignFirst (links playlistId trackId) reposition
                    (playlistTracks this) in
      (mk (users this) (categories this) (playlists this) (tracks this)
          (JSMap.set (PlaylistTrack.id playlistTrack) playlistTrack rows)
          (MemStorage.userId this) (categoryId this) (MemStorage.playlistId this)
          (MemStorage.trackId this) (playlistTrackId this),
       true)
  end.

(** *** Default data *)

Definition defaultUser : InsertUser.t :=
  InsertUser.mk "user" "password" (Some "user@example.com")
    (Some "+1 (555) 123-4567") (Some "Demo User") (Some "#1DB954").

(** name, icon, color *)
Definition categoryData : list (string * string * string) :=
  [ ("Interviews", "ri-mic-fill", "#1DB954");
    ("Melodies", "ri-file-music-fill", "#2D46B9");
    ("Samples", "ri-sound-module-fill", "#F230AA");
    ("Podcasts", "ri-vidicon-fill", "#FFC107") ].

Definition playlistData : list (string * string * string) :=
  [ ("Morning Reflections", "ri-mic-fill", "#2D46B9");
    ("Work Notes", "ri-album-fill", "#F230AA");
    ("Song Ideas", "ri-music-fill", "#1DB954") ].

Definition initializeDefaultData (this : t) : t :=
  let (this1, user) := createUser this defaultUser in
  let this2 :=
    fold_left
      (fun s '(name, icon, color) =>
         fst (createCategory s
                (InsertCategory.mk name icon color (User.id user))))
      categoryData this1 in
  fold_left
    (fun s '(name, icon, color) =>
       fst (createPlaylist s
              (InsertPlaylist.mk name (User.id user) color icon)))
    playlistData this2.

(** [new MemStorage()] *)
Definition new : t := initializeDefaultData fresh.

End MemStorage.

(** [export const storage = new MemStorage()] *)
Definition storage : MemStorage.t := MemStorage.new.

(** ** Request handlers *)

(** What a handler reads from the request.  A path segment that the handler
    passes through [parseInt] is given as the integer it parses to (a segment
    that is no number parses to [NaN], which is the key of no row, and is
    answered like an id that is not stored).  Each body is given as the
    outcome of its [zod] schema: the parsed data, which has the fields of the
    schema only, or the issues of the [ZodError]. *)
Inductive Parsed (A : Type) :=
| Valid (data : A)
| Invalid (errors : list string).
Arguments Valid {A} data.
Arguments Invalid {A} errors.

(** [insertUserSchema.partial().omit({ password: true })] *)
Module UserPatch.
Record t := mk {
  username : option string;
  email : option (option string);
  phone : option (option string);
  fullName : option (option string);
  avatarColor : option (option string) }.
End UserPatch.

(** The body of [POST /categories] and [POST /playlists]; the handler adds
    [userId]. *)
Module LabelForm.
Record t := mk {
  name : string;
  icon : string;
  color : string }.
End LabelForm.

(** [insertCategorySchema.partial().omit({ userId: true })], and the same for
    playlists. *)
Module LabelPatch.
Record t := mk {
  name : option string;
  icon : option string;
  color : option string }.
End LabelPatch.

(** The fields of [POST /tracks/upload] after [trackSchema.parse];
    [categoryId] is [None] when [parseInt] made [NaN] of the text, which like
    [null] equals no category id. *)
Module UploadForm.
Record t := mk {
  name : string;
  categoryId : option Z;
  duration : Z }.
End UploadForm.

(** A user without the password: [const { password, ...userData } = user]. *)
Module UserData.
Record t := mk {
  id : Z;
  username : string;
  email : option string;
  phone : option string;
  fullName : option string;
  avatarColor : option string }.
End UserData.

Inductive Request :=
| GetUsersMe
| PatchUsersMe (body : Parsed UserPatch.t)
| GetCategories
| PostCategories (body : Parsed LabelForm.t)
| PatchCategory (id : Z) (body : Parsed LabelPatch.t)
| DeleteCategory (id : Z)
| GetPlaylists
| GetPlaylist (id : Z)
| PostPlaylists (body : Parsed LabelForm.t)
| PatchPlaylist (id : Z) (body : Parsed LabelPatch.t)
| DeletePlaylist (id : Z)
| GetTracks (categoryId : option Z)
| PostTracksUpload (file : option string) (body : Parsed UploadForm.t) (now : Z)
| GetTrackAudio (id : Z)
| DeleteTrack (id : Z)
| PostPlaylistTracks (playlistId : Z) (trackId : Parsed Z)
| DeletePlaylistTrack (playlistId trackId : Z).

Inductive Body :=
| Message (message : string)
| Issues (errors : list string)
| OfUser (userData : UserData.t)
| OfCategory (category : Category.t)
| OfCategories (categories : list Category.t)
| OfPlaylist (playlist : Playlist.t)
| OfPlaylists (playlists : list Playlist.t)
| OfPlaylistWithTracks (playlist : Playlist.t) (tracks : list (Track.t * Z))
| OfTrack (track : Track.t)
| OfTracks (tracks : list Track.t)
| OfPlaylistTrack (playlistTrack : PlaylistTrack.t)
| OfFile (filePath : string)
| NoBody.

Record Response := mkResponse {
  status : Z;
  body : Body }.

Module Routes.

Import MemStorage.

(** [getUserFromSession]: the session user is fixed. *)
Definition getUserFromSession : Z := 1.

Definition omitPassword (user : User.t) : UserData.t :=
  UserData.mk (User.id user) (User.username user) (User.email user)
    (User.phone user) (User.fullName user) (User.avatarColor user).

Definition json (status : Z) (body : Body) : Response :=
  mkResponse status body.

(** Every handler takes [user], the [req.user.id] of the caller. *)

Definition get_users_me (user : Z) (s : t) : t * Response :=
  match getUser s user with
  | None => (s, json 404 (Message "User not found"))
  | Some u => (s, json 200 (OfUser (omitPassword u)))
  end.

Definition patch_users_me (user : Z) (body : Parsed UserPatch.t) (s : t)
  : t * Response :=
  match body with
  | Invalid errors => (s, json 400 (Issues errors))
  | Valid data =>
      let updates :=
        PartialUser.mk (UserPatch.username data) None (UserPatch.email data)
          (UserPatch.phone data) (UserPatch.fullName data)
          (UserPatch.avatarColor data) in
      match updateUser s user updates with
      | (s', None) => (s', json 404 (Message "User not found"))
      | (s', Some updatedUser) =>
          (s', json 200 (OfUser (omitPassword updatedUser)))
      end
  end.

Definition get_categories (user : Z) (s : t) : t * Response :=
  (s, json 200 (OfCategories (getCategories s user))).

Definition post_categories (user : Z) (body : Parsed LabelForm.t) (s : t)
  : t * Response :=
  match body with
  | Invalid errors => (s, json 400 (Issues errors))
  | Valid form =>
      let data :=
        InsertCategory.mk (LabelForm.name form) (LabelForm.icon form)
          (LabelForm.color form) user in
      let (s', newCategory) := createCategory s data in
      (s', json 201 (OfCategory newCategory))
  end.

Definition patch_category (user id : Z) (body : Parsed LabelPatch.t) (s : t)
  : t * Response :=
  match getCategoryById s id with
  | None => (s, json 404 (Message "Category not found"))
  | Some category =>
      if negb (Category.userId category =? user) then
        (s, json 403 (Message "Not authorized to update this category"))
      else
        match body with
        | Invalid errors => (s, json 400 (Issues errors))
        | Valid patch =>
            let data :=
              PartialCategory.mk (LabelPatch.name patch)
                (LabelPatch.icon patch) (LabelPatch.color patch) None in
            match updateCategory s id data with
            | (s', Some updatedCategory) =>
                (s', json 200 (OfCategory updatedCategory))
            | (s', None) => (s', json 200 NoBody)
            end
        end
  end.

Definition delete_category (user id : Z) (s : t) : t * Response :=
  match getCategoryById s id with
  | None => (s, json 404 (Message "Category not found"))
  | Some category =>
      if negb (Category.userId category =? user) then
        (s, json 403 (Message "Not authorized to delete this category"))
      else
        let (s', success) := deleteCategory s id in
        if negb success then
          (s', json 500 (Message "Failed to delete category"))
        else (s', json 204 NoBody)
  end.

Definition get_playlists (user : Z) (s : t) : t * Response :=
  (s, json 200 (OfPlaylists (getPlaylists s user))).

Definition get_playlist (user id : Z) (s : t) : t * Response :=
  match getPlaylistById s id with
  | None => (s, json 404 (Message "Playlist not found"))
  | Some playlist =>
      if negb (Playlist.userId playlist =? user) then
        (s, json 403 (Message "Not authorized to access this playlist"))
      else
        match getPlaylistTracks s id with
        | Throw _ => (s, json 500 (Message "Failed to get playlist"))
        | Ok tracks =>
            (s, json 200
                  (OfPlaylistWithTracks playlist
                     (map (fun e => (TrackAt.track e, TrackAt.position e))
                          tracks)))
        end
  end.

Definition post_playlists (user : Z) (body : Parsed LabelForm.t) (s : t)
  : t * Response :=
  match body with
  | Invalid errors => (s, json 400 (Issues errors))
  | Valid form =>
      let data :=
        InsertPlaylist.mk (LabelForm.name form) user (LabelForm.color form)
          (LabelForm.icon form) in
      let (s', newPlaylist) := createPlaylist s data in
      (s', json 201 (OfPlaylist newPlaylist))
  end.

Definition patch_playlist (user id : Z) (body : Parsed LabelPatch.t) (s : t)
  : t * Response :=
  match getPlaylistById s id with
  | None => (s, json 404 (Message "Playlist not found"))
  | Some playlist =>
      if negb (Playlist.userId playlist =? user) then
        (s, json 403 (Message "Not authorized to update this playlist"))
      else
        match body with
        | Invalid errors => (s, json 400 (Issues errors))
        | Valid patch =>
            let data :=
              PartialPlaylist.mk (LabelPatch.name patch) None
                (LabelPatch.color patch) (LabelPatch.icon patch) in
            match updatePlaylist s id data with
            | (s', Some updatedPlaylist) =>
                (s', json 200 (OfPlaylist updatedPlaylist))
            | (s', None) => (s', json 200 NoBody)
            end
        end
  end.

Definition delete_playlist (user id : Z) (s : t) : t * Response :=
  match getPlaylistById s id with
  | None => (s, json 404 (Message "Playlist not found"))
  | Some playlist =>
      if negb (Playlist.userId playlist =? user) then
        (s, json 403 (Message "Not authorized to delete this playlist"))
      else
        let (s', success) := deletePlaylist s id in
        if negb success then
          (s', json 500 (Message "Failed to delete playlist"))
        else (s', json 204 NoBody)
  end.

(** [req.query.categoryId] is given as what [parseInt] makes of it, [None]
    when the parameter is missing, empty or not a number: all of these, and
    the number 0, are falsy. *)
Definition get_tracks (user : Z) (categoryId : option Z) (s : t)
  : t * Response :=
  match categoryId with
  | Some categoryId =>
      if negb (categoryId =? 0) then
        match getCategoryById s categoryId with
        | None =>
            (s, json 403 (Message "Not authorized to access this category"))
        | Some category =>
            if negb (Category.userId category =? user) then
              (s, json 403 (Message "Not authorized to access this category"))
            else (s, json 200 (OfTracks (getTracksByCategory s categoryId)))
        end
      else (s, json 200 (OfTracks (getTracks s user)))
  | None => (s, json 200 (OfTracks (getTracks s user)))
  end.

(** [file] is [req.file.path] when the upload middleware accepted a file. *)
Definition post_tracks_upload (user : Z) (file : option string)
  (body : Parsed UploadForm.t) (now : Z) (s : t) : t * Response :=
  match file with
  | None => (s, json 400 (Message "No audio file uploaded"))
  | Some path =>
      match body with
      | Invalid errors => (s, json 400 (Issues errors))
      | Valid trackData =>
          let (s', track) :=
            createTrack s
              (InsertTrack.mk (UploadForm.name trackData) user
                 (UploadForm.categoryId trackData)
                 (UploadForm.duration trackData) path)
              now in
          (s', json 201 (OfTrack track))
      end
  end.

(** The handler hands the answer to [res.sendFile(track.filePath)]: what is
    sent depends on the file system, which is not part of the store. *)
Definition get_track_audio (user id : Z) (s : t) : t * Response :=
  match getTrackById s id with
  | None => (s, json 404 (Message "Track not found"))
  | Some track =>
      if negb (Track.userId track =? user) then
        (s, json 403 (Message "Not authorized to access this track"))
      else (s, json 200 (OfFile (Track.filePath track)))
  end.

(** The handler also unlinks the file of the track; the file system is not
    part of the store. *)
Definition delete_track (user id : Z) (s : t) : t * Response :=
  match getTrackById s id with
  | None => (s, json 404 (Message "Track not found"))
  | Some track =>
      if negb (Track.userId track =? user) then
        (s, json 403 (Message "Not authorized to delete this track"))
      else
        let (s', success) := deleteTrack s id in
        if negb success then
          (s', json 500 (Message "Failed to delete track"))
        else (s', json 204 NoBody)
  end.

(** [playlistTracks.length > 0 ? Math.max(...positions) : -1]; the spread
    passes every position as an argument, which the engine allows for the
    lengths of listings considered here. *)
Definition maxPosition (playlistTracks : list TrackAt.t) : Z :=
  match map TrackAt.position playlistTracks with
  | [] => -1
  | p :: ps => math_max p ps
  end.

(** An [integer] column of an insert schema accepts the numbers of a 32-bit
    integer. *)
Definition integerColumn (n : Z) : bool :=
  (-2147483648 <=? n) && (n <=? 2147483647).

(** The issue that the schema reports for a number outside the column, named
    by its code and the path of the field. *)
Definition columnIssues (path : string) (n : Z) : list string :=
  if n <? -2147483648 then [String.append "too_small: " path]
  else if 2147483647 <? n then [String.append "too_big: " path]
  else [].

(** [insertPlaylistTrackSchema.parse({ playlistId, trackId, position })]: the
    three fields are integer columns, checked in this order.  [trackId] is
    what [parseInt] made of [req.body.trackId]: [Valid n] is the integer [n],
    [Invalid errors] is the [NaN] of a text that is no number, with the issue
    that the schema reports for it. *)
Definition insertPlaylistTrackSchema (playlistId : Z) (trackId : Parsed Z)
  (position : Z) : Parsed InsertPlaylistTrack.t :=
  let issues :=
    (columnIssues "playlistId" playlistId
     ++ match trackId with
        | Valid n => columnIssues "trackId" n
        | Invalid errors => errors
        end
     ++ columnIssues "position" position)%list in
  match trackId, issues with
  | Valid n, [] => Valid (InsertPlaylistTrack.mk playlistId n position)
  | _, _ => Invalid issues
  end.

(** The part of [POST /playlists/:playlistId/tracks] that follows the
    ownership check: the next position is computed, the link is validated
    and added.  An error thrown by the store is caught by the handler
    (status 500). *)
Definition add (playlistId : Z) (trackId : Parsed Z) (s : t) : t * Response :=
  match getPlaylistTracks s playlistId with
  | Throw _ => (s, json 500 (Message "Failed to add track to playlist"))
  | Ok playlistTracks =>
      let maxPosition := maxPosition playlistTracks in
      match insertPlaylistTrackSchema playlistId trackId (maxPosition + 1) with
      | Invalid errors => (s, json 400 (Issues errors))
      | Valid data =>
          match addTrackToPlaylist s data with
          | (s', Throw _) =>
              (s', json 500 (Message "Failed to add track to playlist"))
          | (s', Ok newPlaylistTrack) =>
              (s', json 201 (OfPlaylistTrack newPlaylistTrack))
          end
      end
  end.

Definition post_playlist_tracks (user playlistId : Z) (trackId : Parsed Z)
  (s : t) : t * Response :=
  match getPlaylistById s playlistId with
  | None => (s, json 404 (Message "Playlist not found"))
  | Some playlist =>
      if negb (Playlist.userId playlist =? user) then
        (s, json 403 (Message "Not authorized to modify this playlist"))
      else add playlistId trackId s
  end.

Definition delete_playlist_track (user playlistId trackId : Z) (s : t)
  : t * Response :=
  match getPlaylistById s playlistId with
  | None => (s, json 404 (Message "Playlist not found"))
  | Some playlist =>
      if negb (Playlist.userId playlist =? user) then
        (s, json 403 (Message "Not authorized to modify this playlist"))
      else
        let (s', success) := removeTrackFromPlaylist s playlistId trackId in
        if negb success then
          (s', json 404 (Message "Track not found in playlist"))
        else (s', json 204 NoBody)
  end.

(** The router, for a caller [user]. *)
Definition handle (user : Z) (req : Request) (s : t) : t * Response :=
  match req with
  | GetUsersMe => get_users_me user s
  | PatchUsersMe body => patch_users_me user body s
  | GetCategories => get_categories user s
  | PostCategories body => post_categories user body s
  | PatchCategory id body => patch_category user id body s
  | DeleteCategory id => delete_category user id s
  | GetPlaylists => get_playlists user s
  | GetPlaylist id => get_playlist user id s
  | PostPlaylists body => post_playlists user body s
  | PatchPlaylist id body => patch_playlist user id body s
  | DeletePlaylist id => delete_playlist user id s
  | GetTracks categoryId => get_tracks user categoryId s
  | PostTracksUpload file body now => post_tracks_upload user file body now s
  | GetTrackAudio id => get_track_audio user id s
  | DeleteTrack id => delete_track user id s
  | PostPlaylistTracks playlistId trackId =>
      post_playlist_tracks user playlistId trackId s
  | DeletePlaylistTrack playlistId trackId =>
      delete_playlist_track user playlistId trackId s
  end.

(** [registerRoutes]: the session middleware, then the router. *)
Definition registerRoutes (req : Request) (s : t) : t * Response :=
  handle getUserFromSession req s.

End Routes.

(** ** The interface of the store as a type of calls *)

(** [IStorage]: one constructor per method, indexed by what the method
    returns. *)
Module Call.

Inductive t : Type -> Type :=
| getUser (id : Z) : t (option User.t)
| getUserByUsername (username : string) : t (option User.t)
| createUser (user : InsertUser.t) : t User.t
| updateUser (id : Z) (user : PartialUser.t) : t (option User.t)
| getCategories (userId : Z) : t (list Category.t)
| getCategoryById (id : Z) : t (option Category.t)
| createCategory (category : InsertCategory.t) : t Category.t
| updateCategory (id : Z) (category : PartialCategory.t) : t (option Category.t)
| deleteCategory (id : Z) : t bool
| getPlaylists (userId : Z) : t (list Playlist.t)
| getPlaylistById (id : Z) : t (option Playlist.t)
| createPlaylist (playlist : InsertPlaylist.t) : t Playlist.t
| updatePlaylist (id : Z) (playlist : PartialPlaylist.t) : t (option Playlist.t)
| deletePlaylist (id : Z) : t bool
| getTracks (userId : Z) : t (list Track.t)
| getTrackById (id : Z) : t (option Track.t)
| getTracksByCategory (categoryId : Z) : t (list Track.t)
| createTrack (track : InsertTrack.t) (now : Z) : t Track.t
| updateTrack (id : Z) (track : PartialTrack.t) : t (option Track.t)
| deleteTrack (id : Z) : t bool
| getPlaylistTracks (playlistId : Z) : t (list TrackAt.t)
| addTrackToPlaylist (playlistTrack : InsertPlaylistTrack.t) : t PlaylistTrack.t
| removeTrackFromPlaylist (playlistId trackId : Z) : t bool
| updateTrackPosition (playlistId trackId newPosition : Z) : t bool.

Inductive Kind := Read | Create | Update | Delete.

Definition kind {A} (c : t A) : Kind :=
  match c with
  | getUser _ | getUserByUsername _ | getCategories _ | getCategoryById _
  | getPlaylists _ | getPlaylistById _ | getTracks _ | getTrackById _
  | getTracksByCategory _ | getPlaylistTracks _ => Read
  | createUser _ | createCategory _ | createPlaylist _ | createTrack _ _
  | addTrackToPlaylist _ => Create
  | updateUser _ _ | updateCategory _ _ | updatePlaylist _ _ | updateTrack _ _
  | updateTrackPosition _ _ _ => Update
  | deleteCategory _ | deletePlaylist _ | deleteTrack _
  | removeTrackFromPlaylist _ _ => Delete
  end.

End Call.

Definition pure {S A} (s : S) (a : A) : S * result A := (s, Ok a).

Definition returned {S A} (sa : S * A) : S * result A := (fst sa, Ok (snd sa)).

(** One call on the store: the store after it, and the value or the error. *)
Definition invoke {A} (c : Call.t A) (this : MemStorage.t)
  : MemStorage.t * result A :=
  match c in Call.t A return MemStorage.t * result A with
  | Call.getUser id => pure this (MemStorage.getUser this id)
  | Call.getUserByUsername username =>
      pure this (MemStorage.getUserByUsername this username)
  | Call.createUser user => returned (MemStorage.createUser this user)
  | Call.updateUser id user => returned (MemStorage.updateUser this id user)
  | Call.getCategories userId => pure this (MemStorage.getCategories this userId)
  | Call.getCategoryById id => pure this (MemStorage.getCategoryById this id)
  | Call.createCategory category =>
      returned (MemStorage.createCategory this category)
  | Call.updateCategory id category =>
      returned (MemStorage.updateCategory this id category)
  | Call.deleteCategory id => returned (MemStorage.deleteCategory this id)
  | Call.getPlaylists userId => pure this (MemStorage.getPlaylists this userId)
  | Call.getPlaylistById id => pure this (MemStorage.getPlaylistById this id)
  | Call.createPlaylist playlist =>
      returned (MemStorage.createPlaylist this playlist)
  | Call.updatePlaylist id playlist =>
      returned (MemStorage.updatePlaylist this id playlist)
  | Call.deletePlaylist id => returned (MemStorage.deletePlaylist this id)
  | Call.getTracks userId => pure this (MemStorage.getTracks this userId)
  | Call.getTrackById id => pure this (MemStorage.getTrackById this id)
  | Call.getTracksByCategory categoryId =>
      pure this (MemStorage.getTracksByCategory this categoryId)
  | Call.createTrack track now =>
      returned (MemStorage.createTrack this track now)
  | Call.updateTrack id track => returned (MemStorage.updateTrack this id track)
  | Call.deleteTrack id => returned (MemStorage.deleteTrack this id)
  | Call.getPlaylistTracks playlistId =>
      (this, MemStorage.getPlaylistTracks this playlistId)
  | Call.addTrackToPlaylist playlistTrack =>
      MemStorage.addTrackToPlaylist this playlistTrack
  | Call.removeTrackFromPlaylist playlistId trackId =>
      returned (MemStorage.removeTrackFromPlaylist this playlistId trackId)
  | Call.updateTrackPosition playlistId trackId newPosition =>
      returned
        (MemStorage.updateTrackPosition this playlistId trackId newPosition)
  end.

(** A call of any return type. *)
Definition AnyCall : Type := { A : Type & Call.t A }.

Definition call {A} (c : Call.t A) : AnyCall := existT _ A c.

Definition step (this : MemStorage.t) (c : AnyCall) : MemStorage.t :=
  fst (invoke (projT2 c) this).

(** The store after a sequence of calls. *)
Definition run (cs : list AnyCall) (this : MemStorage.t) : MemStorage.t :=
  fold_left step cs this.

(** The stores that a sequence of calls builds from the constructor's. *)
Definition reachable (s : MemStorage.t) : Prop :=
  exists cs, s = run cs MemStorage.fresh.

(** *** Ids assigned along a sequence of calls *)

Inductive Entity := AUser | ACategory | APlaylist | ATrack | APlaylistTrack.

Definition Entity_eqb (a b : Entity) : bool :=
  match a, b with
  | AUser, AUser | ACategory, ACategory | APlaylist, APlaylist
  | ATrack, ATrack | APlaylistTrack, APlaylistTrack => true
  | _, _ => false
  end.

(** The id that a call assigns to a new row, if it makes one:
    [addTrackToPlaylist] makes a row when it returns a link for a pair that
    had none. *)
Definition assigned {A} (c : Call.t A) (this : MemStorage.t)
  : option (Entity * Z) :=
  match c with
  | Call.createUser user =>
      Some (AUser, User.id (snd (MemStorage.createUser this user)))
  | Call.createCategory category =>
      Some (ACategory,
            Category.id (snd (MemStorage.createCategory this category)))
  | Call.createPlaylist playlist =>
      Some (APlaylist,
            Playlist.id (snd (MemStorage.createPlaylist this playlist)))
  | Call.createTrack track now =>
      Some (ATrack, Track.id (snd (MemStorage.createTrack this track now)))
  | Call.addTrackToPlaylist playlistTrack =>
      match MemStorage.addTrackToPlaylist this playlistTrack with
      | (_, Ok row) =>
          if existsb
               (MemStorage.links
                  (InsertPlaylistTrack.playlistId playlistTrack)
                  (InsertPlaylistTrack.trackId playlistTrack))
               (JSMap.values (MemStorage.playlistTracks this))
          then None
          else Some (APlaylistTrack, PlaylistTrack.id row)
      | (_, Throw _) => None
      end
  | _ => None
  end.

(** The ids assigned to rows of [entity], oldest first. *)
Fixpoint assignedIds (entity : Entity) (cs : list AnyCall)
  (this : MemStorage.t) : list Z :=
  match cs with
  | [] => []
  | c :: cs' =>
      let rest := assignedIds entity cs' (step this c) in
      match assigned (projT2 c) this with
      | Some (e, id) => if Entity_eqb entity e then id :: rest else rest
      | None => rest
      end
  end.

(** ** Two stores that differ in a password only *)

Definition setPassword (password : string) (user : User.t) : User.t :=
  User.mk (User.id user) (User.username user) password (User.email user)
    (User.phone user) (User.fullName user) (User.avatarColor user).

(** The store [s] with another password for the user stored under [id]. *)
Definition withPassword (id : Z) (password : string) (s : MemStorage.t)
  : MemStorage.t :=
  MemStorage.mk
    (map (fun e => if fst e =? id then (fst e, setPassword password (snd e))
                   else e)
         (MemStorage.users s))
    (MemStorage.categories s) (MemStorage.playlists s) (MemStorage.tracks s)
    (MemStorage.playlistTracks s)
    (MemStorage.userId s) (MemStorage.categoryId s) (MemStorage.playlistId s)
    (MemStorage.trackId s) (MemStorage.playlistTrackId s).

(** ** Consistency of a store *)

(** Every row sits under its own id. *)
Definition keyed {V} (id : V -> Z) (m : JSMap.t V) : Prop :=
  forall k v, In (k, v) m -> id v = k.

(** Every key is below the counter. *)
Definition below {V} (bound : Z) (m : JSMap.t V) : Prop :=
  forall k, In k (JSMap.keys m) -> k < bound.

Definition pairOf (pt : PlaylistTrack.t) : Z * Z :=
  (PlaylistTrack.playlistId pt, PlaylistTrack.trackId pt).

(** What every reachable store satisfies: tracks and links are keyed by
    their ids, link keys are distinct and below the counter, a link refers to
    a stored playlist and a stored track, and no pair is linked twice. *)
Record Consistent (s : MemStorage.t) : Prop := mkConsistent {
  tracks_keyed : keyed Track.id (MemStorage.tracks s);
  links_keyed : keyed PlaylistTrack.id (MemStorage.playlistTracks s);
  links_nodup : NoDup (JSMap.keys (MemStorage.playlistTracks s));
  links_below :
    below (MemStorage.playlistTrackId s) (MemStorage.playlistTracks s);
  links_refer :
    forall pt, In pt (JSMap.values (MemStorage.playlistTracks s)) ->
      JSMap.get (PlaylistTrack.playlistId pt) (MemStorage.playlists s) <> None
      /\ JSMap.get (PlaylistTrack.trackId pt) (MemStorage.tracks s) <> None;
  links_pairs :
    NoDup (map pairOf (JSMap.values (MemStorage.playlistTracks s))) }.

(** The counter of an entity. *)
Definition counter (entity : Entity) (s : MemStorage.t) : Z :=
  match entity with
  | AUser => MemStorage.userId s
  | ACategory => MemStorage.categoryId s
  | APlaylist => MemStorage.playlistId s
  | ATrack => MemStorage.trackId s
  | APlaylistTrack => MemStorage.playlistTrackId s
  end.

(** ** Listings and link rows *)

(** What an entry of the listing is made from. *)
Definition entryOf (s : MemStorage.t) (pt : PlaylistTrack.t) (e : TrackAt.t)
  : Prop :=
  JSMap.get (PlaylistTrack.trackId pt) (MemStorage.tracks s)
  = Some (TrackAt.track e)
  /\ Track.id (TrackAt.track e) = PlaylistTrack.trackId pt
  /\ TrackAt.position e = PlaylistTrack.position pt.

(** The rows of the link table for one pair. *)
Definition rowsFor (playlistId trackId : Z) (s : MemStorage.t)
  : list PlaylistTrack.t :=
  filter (MemStorage.links playlistId trackId)
         (JSMap.values (MemStorage.playlistTracks s)).

(** The entries of a listing for one track. *)
Definition entriesFor (trackId : Z) (entries : list TrackAt.t)
  : list TrackAt.t :=
  filter (fun e => Track.id (TrackAt.track e) =? trackId) entries.



(** The calls that make a row of [entity] whatever the store holds. *)
Definition makes (entity : Entity) (c : AnyCall) : bool :=
  match projT2 c, entity with
  | Call.createUser _, AUser
  | Call.createCategory _, ACategory
  | Call.createPlaylist _, APlaylist
  | Call.createTrack _ _, ATrack => true
  | _, _ => false
  end.

(** ** What an update may change *)

(** A field after an update: the provided value, or the old one. *)
Definition provided {A} (old new : A) (upd : option A) : Prop :=
  match upd with
  | Some v => new = v
  | None => new = old
  end.

Definition userUpdated (old new : User.t) (u : PartialUser.t) : Prop :=
  User.id new = User.id old
  /\ provided (User.username old) (User.username new) (PartialUser.username u)
  /\ provided (User.password old) (User.password new) (PartialUser.password u)
  /\ provided (User.email old) (User.email new) (PartialUser.email u)
  /\ provided (User.phone old) (User.phone new) (PartialUser.phone u)
  /\ provided (User.fullName old) (User.fullName new) (PartialUser.fullName u)
  /\ provided (User.avatarColor old) (User.avatarColor new)
       (PartialUser.avatarColor u).

Definition categoryUpdated (old new : Category.t) (u : PartialCategory.t)
  : Prop :=
  Category.id new = Category.id old
  /\ provided (Category.name old) (Category.name new) (PartialCategory.name u)
  /\ provided (Category.icon old) (Category.icon new) (PartialCategory.icon u)
  /\ provided (Category.color old) (Category.color new)
       (PartialCategory.color u)
  /\ provided (Category.userId old) (Category.userId new)
       (PartialCategory.userId u).

Definition playlistUpdated (old new : Playlist.t) (u : PartialPlaylist.t)
  : Prop :=
  Playlist.id new = Playlist.id old
  /\ provided (Playlist.name old) (Playlist.name new) (PartialPlaylist.name u)
  /\ provided (Playlist.userId old) (Playlist.userId new)
       (PartialPlaylist.userId u)
  /\ provided (Playlist.color old) (Playlist.color new)
       (PartialPlaylist.color u)
  /\ provided (Playlist.icon old) (Playlist.icon new) (PartialPlaylist.icon u).

Definition trackUpdated (old new : Track.t) (u : PartialTrack.t) : Prop :=
  Track.id new = Track.id old
  /\ Track.createdAt new = Track.createdAt old
  /\ provided (Track.name old) (Track.name new) (PartialTrack.name u)
  /\ provided (Track.userId old) (Track.userId new) (PartialTrack.userId u)
  /\ provided (Track.categoryId old) (Track.categoryId new)
       (PartialTrack.categoryId u)
  /\ provided (Track.duration old) (Track.duration new)
       (PartialTrack.duration u)
  /\ provided (Track.filePath old) (Track.filePath new)
       (PartialTrack.filePath u).

(** The table [after] is [before] with the row under [id] replaced by [new]:
    no key comes or goes and no other row changes. *)
Definition rowReplaced {V} (id : Z) (new : V) (before after : JSMap.t V)
  : Prop :=
  JSMap.get id after = Some new
  /\ (forall k, k <> id -> JSMap.get k after = JSMap.get k before)
  /\ JSMap.keys after = JSMap.keys before.

(** The store with another table in the place of one. *)
Definition setUsers (m : JSMap.t User.t) (s : MemStorage.t) : MemStorage.t :=
  MemStorage.mk m (MemStorage.categories s) (MemStorage.playlists s)
    (MemStorage.tracks s) (MemStorage.playlistTracks s) (MemStorage.userId s)
    (MemStorage.categoryId s) (MemStorage.playlistId s) (MemStorage.trackId s)
    (MemStorage.playlistTrackId s).

Definition setCategories (m : JSMap.t Category.t) (s : MemStorage.t)
  : MemStorage.t :=
  MemStorage.mk (MemStorage.users s) m (MemStorage.playlists s)
    (MemStorage.tracks s) (MemStorage.playlistTracks s) (MemStorage.userId s)
    (MemStorage.categoryId s) (MemStorage.playlistId s) (MemStorage.trackId s)
    (MemStorage.playlistTrackId s).

Definition setPlaylists (m : JSMap.t Playlist.t) (s : MemStorage.t)
  : MemStorage.t :=
  MemStorage.mk (MemStorage.users s) (MemStorage.categories s) m
    (MemStorage.tracks s) (MemStorage.playlistTracks s) (MemStorage.userId s)
    (MemStorage.categoryId s) (MemStorage.playlistId s) (MemStorage.trackId s)
    (MemStorage.playlistTrackId s).

Definition setTracks (m : JSMap.t Track.t) (s : MemStorage.t) : MemStorage.t :=
  MemStorage.mk (MemStorage.users s) (MemStorage.categories s)
    (MemStorage.playlists s) m (MemStorage.playlistTracks s)
    (MemStorage.userId s) (MemStorage.categoryId s) (MemStorage.playlistId s)
    (MemStorage.trackId s) (MemStorage.playlistTrackId s).

(** ** Scenarios *)

Definition demoPlaylist : InsertPlaylist.t :=
  InsertPlaylist.mk "Demo" 1 "#1DB954" "ri-music-fill".

Definition demoTrack (name : string) (userId : Z) (categoryId : option Z)
  : InsertTrack.t :=
  InsertTrack.mk name userId categoryId 42 "uploads/1-1.webm".

(** A playlist and two tracks. *)
Definition demoSetup : list AnyCall :=
  [ call (Call.createPlaylist demoPlaylist);
    call (Call.createTrack (demoTrack "first" 1 None) 1000);
    call (Call.createTrack (demoTrack "second" 1 None) 2000) ].

(** The first track is linked to the playlist at position 0. *)
Definition demoLinked : list AnyCall :=
  (demoSetup
   ++ [ call (Call.addTrackToPlaylist (InsertPlaylistTrack.mk 1 1 0)) ])%list.

(** No two stored users have the same username. *)
Definition usernamesUnique (s : MemStorage.t) : Prop :=
  NoDup (map User.username (JSMap.values (MemStorage.users s))).

(** The default user is created twice. *)
Definition sameNameTwice : list AnyCall :=
  [ call (Call.createUser MemStorage.defaultUser);
    call (Call.createUser MemStorage.defaultUser) ].

(** A second user, with a name of its own. *)
Definition otherUser : InsertUser.t :=
  InsertUser.mk "other" "secret" None None None None.

Definition renameToOther : UserPatch.t :=
  UserPatch.mk (Some "other") None None None None.

(** An upload by user 2 into category 1, which [storage] holds for user 1. *)
Definition foreignUpload : Request :=
  PostTracksUpload (Some "uploads/2-1.webm")
    (Valid (UploadForm.mk "memo" (Some 1) 42)) 3000.

(** The session user uploads two tracks and adds them to playlist 1 in
    the reverse order. *)
Definition demoRequests : list Request :=
  [ PostTracksUpload (Some "uploads/1-1.webm")
      (Valid (UploadForm.mk "first" (Some 1) 42)) 1000;
    PostTracksUpload (Some "uploads/1-2.webm")
      (Valid (UploadForm.mk "second" (Some 2) 7)) 2000;
    PostPlaylistTracks 1 (Valid 2);
    PostPlaylistTracks 1 (Valid 1);
    PostPlaylistTracks 1 (Valid 2) ].

Definition serve (reqs : list Request) (s : MemStorage.t) : MemStorage.t :=
  fold_left (fun s req => fst (Routes.registerRoutes req s)) reqs s.

(** ** Keys and counters of the other tables *)

(** Users, categories and playlists sit under their ids, and the keys of
    users, categories, playlists and tracks are distinct and below their
    counters. *)
Record Tidy (s : MemStorage.t) : Prop := mkTidy {
  tidy_users_keyed : keyed User.id (MemStorage.users s);
  tidy_users_below : below (MemStorage.userId s) (MemStorage.users s);
  tidy_categories_keyed : keyed Category.id (MemStorage.categories s);
  tidy_categories_below :
    below (MemStorage.categoryId s) (MemStorage.categories s);
  tidy_playlists_keyed : keyed Playlist.id (MemStorage.playlists s);
  tidy_playlists_below :
    below (MemStorage.playlistId s) (MemStorage.playlists s);
  tidy_tracks_below : below (MemStorage.trackId s) (MemStorage.tracks s);
  tidy_users_nodup : NoDup (JSMap.keys (MemStorage.users s));
  tidy_categories_nodup : NoDup (JSMap.keys (MemStorage.categories s));
  tidy_playlists_nodup : NoDup (JSMap.keys (MemStorage.playlists s));
  tidy_tracks_nodup : NoDup (JSMap.keys (MemStorage.tracks s)) }.

(** The links of a playlist, in the order of the table. *)
Definition linksOf (playlistId : Z) (s : MemStorage.t) : list PlaylistTrack.t :=
  filter (fun pt => PlaylistTrack.playlistId pt =? playlistId)
         (JSMap.values (MemStorage.playlistTracks s)).

(** The comparison that [getPlaylistTracks] sorts by, and its order. *)
Definition byPosition (a b : TrackAt.t) : Z :=
  TrackAt.position a - TrackAt.position b.

Definition notAfter (a b : TrackAt.t) : Prop :=
  TrackAt.position a <= TrackAt.position b.

Definition trackIdOf (e : TrackAt.t) : Z := Track.id (TrackAt.track e).

Definition setPlaylistTracks (m : JSMap.t PlaylistTrack.t) (s : MemStorage.t)
  : MemStorage.t :=
  MemStorage.mk (MemStorage.users s) (MemStorage.categories s)
    (MemStorage.playlists s) (MemStorage.tracks s) m
    (MemStorage.userId s) (MemStorage.categoryId s) (MemStorage.playlistId s)
    (MemStorage.trackId s) (MemStorage.playlistTrackId s).

(** A link row at another position. *)
Definition movedTo (newPosition : Z) (pt : PlaylistTrack.t) : PlaylistTrack.t :=
  PlaylistTrack.mk (PlaylistTrack.id pt) (PlaylistTrack.playlistId pt)
    (PlaylistTrack.trackId pt) newPosition.




(** The calls of [initializeDefaultData]. *)
Definition defaultCalls : list AnyCall :=
  (call (Call.createUser MemStorage.defaultUser)
   :: map (fun '(name, icon, color) =>
             call (Call.createCategory (InsertCategory.mk name icon color 1)))
          MemStorage.categoryData
   ++ map (fun '(name, icon, color) =>
             call (Call.createPlaylist (InsertPlaylist.mk name 1 color icon)))
          MemStorage.playlistData)%list.

(** The default store with a track of user 2 in category 1 and a track of
    user 1, and the first of them in playlist 1. *)
Definition sharedCalls : list AnyCall :=
  (defaultCalls
   ++ [ call (Call.createTrack (demoTrack "theirs" 2 (Some 1)) 1000);
        call (Call.createTrack (demoTrack "mine" 1 (Some 1)) 2000);
        call (Call.addTrackToPlaylist (InsertPlaylistTrack.mk 1 1 0)) ])%list.


(** How one request of [user] may change a table of owned rows: not at
    all, by a new row of [user] under the counter, by another version of a
    row of
    [user] with the same id and owner, or by the removal of a row of
    [user]. *)
Inductive ownChange {V} (user : Z) (owner id : V -> Z) (counter : Z)
  (m : JSMap.t V) : JSMap.t V -> Prop :=
| same_table : ownChange user owner id counter m m
| new_row v :
    owner v = user -> ownChange user owner id counter m (JSMap.set counter v m)
| new_version k old new :
    JSMap.get k m = Some old -> owner old = user ->
    owner new = owner old -> id new = id old ->
    ownChange user owner id counter m (JSMap.set k new m)
| no_row k old :
    JSMap.get k m = Some old -> owner old = user ->
    ownChange user owner id counter m (JSMap.remove k m).

(** How one request of [user] may change the table of users: not at all,
    or by another version of the caller's row with the same id and
    password. *)
Inductive usersChange (user : Z) (m : JSMap.t User.t)
  : JSMap.t User.t -> Prop :=
| same_users : usersChange user m m
| patched old new :
    JSMap.get user m = Some old ->
    User.id new = User.id old -> User.password new = User.password old ->
    usersChange user m (JSMap.set user new m).


(** What holds of the store of the running server: user 1 is the only user
    and owns every category, playlist and track. *)
Record Deployed (s : MemStorage.t) : Prop := mkDeployed {
  deployed_users : JSMap.keys (MemStorage.users s) = [1];
  deployed_categories :
    Forall (fun c => Category.userId c = 1)
           (JSMap.values (MemStorage.categories s));
  deployed_playlists :
    Forall (fun p => Playlist.userId p = 1)
           (JSMap.values (MemStorage.playlists s));
  deployed_tracks :
    Forall (fun t => Track.userId t = 1) (JSMap.values (MemStorage.tracks s)) }.

(** * Properties *)

(** ** Lists *)

Lemma filter_filter {A} (p q : A -> bool) (l : list A) :
  filter p (filter q l) = filter (fun x => q x && p x) l.
Proof.
  induction l as [|x l IH]; simpl; [reflexivity|].
  destruct (q x); simpl; [destruct (p x)|]; rewrite ?IH; reflexivity.
Qed.

Lemma NoDup_map_filter {K E} (key : E -> K) (keep : E -> bool) rows :
  NoDup (map key rows) -> NoDup (map key (filter keep rows)).
Proof.
  intros Hnd. induction rows as [|row rows IH]; simpl in *; [constructor|].
  apply NoDup_cons_iff in Hnd as [Hrow Hrows].
  destruct (keep row); simpl; [|now apply IH].
  constructor; [|now apply IH].
  rewrite in_map_iff in *. intros (other & Hkey & Hin).
  apply Hrow. exists other. apply filter_In in Hin. tauto.
Qed.

Lemma map_filter_snd {A B} (p : B -> bool) (l : list (A * B)) :
  map snd (filter (fun e => p (snd e)) l) = filter p (map snd l).
Proof.
  induction l as [|x l IH]; simpl; [reflexivity|].
  destruct (p (snd x)); simpl; rewrite IH; reflexivity.
Qed.

Lemma find_some_existsb {A} (p : A -> bool) (l : list A) :
  find p l = None <-> existsb p l = false.
Proof.
  induction l as [|x l IH]; simpl; [tauto|].
  destruct (p x); simpl; [split; discriminate|exact IH].
Qed.

Lemma find_none_filter {A} (p : A -> bool) (l : list A) :
  find p l = None -> filter p l = [].
Proof.
  induction l as [|x l IH]; simpl; [reflexivity|].
  destruct (p x); [discriminate|exact IH].
Qed.

(** ** Maps *)

Section MapFacts.
Context {V : Type}.
Implicit Types (m : JSMap.t V) (k : Z) (v : V).

Lemma get_In k v m : JSMap.get k m = Some v -> In (k, v) m.
Proof.
  induction m as [|[k' v'] m IH]; simpl; [discriminate|].
  destruct (Z.eqb_spec k k') as [->|_].
  - intros [= ->]. now left.
  - intros H. right. auto.
Qed.

Lemma get_None_keys k m : JSMap.get k m = None <-> ~ In k (JSMap.keys m).
Proof.
  induction m as [|[k' v'] m IH]; simpl; [tauto|].
  destruct (Z.eqb_spec k k') as [->|Hne].
  - split; [discriminate|]. intros H. exfalso. apply H. now left.
  - rewrite IH. split; [intros H [E|I]; [congruence|tauto]|tauto].
Qed.

Lemma In_get k v m :
  NoDup (JSMap.keys m) -> In (k, v) m -> JSMap.get k m = Some v.
Proof.
  induction m as [|[k' v'] m IH]; simpl; [tauto|].
  intros Hnd [E|Hin]; inversion Hnd as [|? ? Hk Hm]; subst.
  - inversion E; subst. now rewrite Z.eqb_refl.
  - destruct (Z.eqb_spec k k') as [->|_]; [|auto].
    exfalso. apply Hk. change k' with (fst (k', v)). now apply in_map.
Qed.

Lemma get_set_same k v m : JSMap.get k (JSMap.set k v m) = Some v.
Proof.
  induction m as [|[k' v'] m IH]; simpl.
  - now rewrite Z.eqb_refl.
  - destruct (Z.eqb_spec k k') as [->|Hne]; simpl.
    + now rewrite Z.eqb_refl.
    + destruct (Z.eqb_spec k k'); [contradiction|exact IH].
Qed.

Lemma get_set_other k k' v m :
  k' <> k -> JSMap.get k' (JSMap.set k v m) = JSMap.get k' m.
Proof.
  intros Hne. induction m as [|[k0 v0] m IH]; simpl.
  - destruct (Z.eqb_spec k' k); [contradiction|reflexivity].
  - destruct (Z.eqb_spec k k0) as [->|Hk]; simpl.
    + destruct (Z.eqb_spec k' k0); [contradiction|reflexivity].
    + now rewrite IH.
Qed.

Lemma get_set_stays k k' v m :
  JSMap.get k' m <> None -> JSMap.get k' (JSMap.set k v m) <> None.
Proof.
  intros H. destruct (Z.eq_dec k' k) as [->|Hne].
  - rewrite get_set_same. discriminate.
  - now rewrite get_set_other.
Qed.

Lemma set_present k v m :
  JSMap.get k m = Some v -> JSMap.set k v m = m.
Proof.
  induction m as [|[k' v'] m IH]; simpl; [discriminate|].
  destruct (Z.eqb_spec k k') as [->|_].
  - now intros [= ->].
  - intros H. now rewrite IH.
Qed.

Lemma set_absent k v m :
  JSMap.get k m = None -> JSMap.set k v m = (m ++ [(k, v)])%list.
Proof.
  induction m as [|[k' v'] m IH]; simpl; [reflexivity|].
  destruct (Z.eqb_spec k k') as [->|_]; [discriminate|].
  intros H. now rewrite IH.
Qed.

Lemma In_set k v k' v' m :
  In (k', v') (JSMap.set k v m) -> (k', v') = (k, v) \/ In (k', v') m.
Proof.
  induction m as [|[k0 v0] m IH]; simpl.
  - intros [E|[]]. now left.
  - destruct (Z.eqb_spec k k0) as [->|_]; simpl.
    + intros [E|H]; [now left|right; now right].
    + intros [E|H]; [right; now left|].
      destruct (IH H); [now left|right; now right].
Qed.

Lemma keyed_set (id : V -> Z) k v m :
  keyed id m -> id v = k -> keyed id (JSMap.set k v m).
Proof.
  intros Hm Hv k' v' Hin. apply In_set in Hin as [E|Hin].
  - now inversion E; subst.
  - now apply Hm.
Qed.

Lemma get_remove_same k m : JSMap.get k (JSMap.remove k m) = None.
Proof.
  apply get_None_keys. unfold JSMap.keys, JSMap.remove.
  intros Hin. apply in_map_iff in Hin as ([k' v'] & E & Hin).
  apply filter_In in Hin as [_ Hk]. simpl in *. subst.
  now rewrite Z.eqb_refl in Hk.
Qed.

Lemma get_filter_keep (p : Z * V -> bool) k m :
  (forall v, p (k, v) = true) ->
  JSMap.get k (filter p m) = JSMap.get k m.
Proof.
  intros Hp. induction m as [|[k' v'] m IH]; simpl; [reflexivity|].
  destruct (Z.eqb_spec k k') as [->|Hne].
  - rewrite Hp. simpl. now rewrite Z.eqb_refl.
  - destruct (p (k', v')); simpl; [|exact IH].
    destruct (Z.eqb_spec k k'); [contradiction|exact IH].
Qed.

Lemma get_remove_other k k' m :
  k' <> k -> JSMap.get k' (JSMap.remove k m) = JSMap.get k' m.
Proof.
  intros Hne. apply get_filter_keep. intros v. simpl.
  destruct (Z.eqb_spec k k'); [congruence|reflexivity].
Qed.

Lemma keyed_filter (id : V -> Z) (p : Z * V -> bool) m :
  keyed id m -> keyed id (filter p m).
Proof.
  intros Hm k v Hin. apply filter_In in Hin as [Hin _]. now apply Hm.
Qed.

Lemma below_filter bound (p : Z * V -> bool) m :
  below bound m -> below bound (filter p m).
Proof.
  intros Hm k Hin. apply Hm. unfold JSMap.keys in *.
  apply in_map_iff in Hin as (e & E & Hin). apply filter_In in Hin as [Hin _].
  apply in_map_iff. now exists e.
Qed.

(** Deleting the keys of a list of rows one by one is one filter. *)
Lemma fold_remove {B} (key : B -> Z) (l : list B) m :
  fold_left (fun m x => JSMap.remove (key x) m) l m
  = filter (fun e => negb (existsb (fun x => key x =? fst e) l)) m.
Proof.
  revert m. induction l as [|x l IH]; intros m; simpl.
  - induction m as [|e m IHm]; simpl; [reflexivity|]. now rewrite <- IHm.
  - rewrite IH. unfold JSMap.remove. rewrite filter_filter.
    apply filter_ext. intros e. now rewrite negb_orb.
Qed.

End MapFacts.

(** ** The cascade and the in-place write *)

Lemma In_values {V} (v : V) (m : JSMap.t V) :
  In v (JSMap.values m) <-> exists k, In (k, v) m.
Proof.
  unfold JSMap.values. rewrite in_map_iff. split.
  - intros ([k v'] & E & Hin). simpl in E. subst. now exists k.
  - intros (k & Hin). now exists (k, v).
Qed.

Lemma In_keys {V} (k : Z) (v : V) (m : JSMap.t V) :
  In (k, v) m -> In k (JSMap.keys m).
Proof. intros Hin. change k with (fst (k, v)). now apply in_map. Qed.

(** On a keyed map with distinct keys the cascade removes the rows that
    satisfy the predicate and no other row. *)
Lemma deleteRows_filter (doomed : PlaylistTrack.t -> bool) rows :
  keyed PlaylistTrack.id rows -> NoDup (JSMap.keys rows) ->
  MemStorage.deleteRows doomed rows
  = filter (fun e => negb (doomed (snd e))) rows.
Proof.
  intros Hkeyed Hnd. unfold MemStorage.deleteRows. rewrite fold_remove.
  apply filter_ext_in. intros [k v] Hin. simpl. f_equal.
  destruct (doomed v) eqn:Hv.
  - apply existsb_exists. exists v. split.
    + apply filter_In. split; [|assumption]. apply In_values. now exists k.
    + apply Z.eqb_eq. now apply Hkeyed.
  - apply not_true_is_false. intros Hex.
    apply existsb_exists in Hex as (x & Hx & Hk).
    apply filter_In in Hx as [Hx Hd]. apply In_values in Hx as (k' & Hx).
    apply Z.eqb_eq in Hk. rewrite (Hkeyed _ _ Hx) in Hk. subst k'.
    apply (In_get _ _ _ Hnd) in Hx. apply (In_get _ _ _ Hnd) in Hin.
    congruence.
Qed.

Lemma assignFirst_keys p f rows :
  JSMap.keys (MemStorage.assignFirst p f rows) = JSMap.keys rows.
Proof.
  induction rows as [|[k pt] rows IH]; simpl; [reflexivity|].
  destruct (p pt); simpl; [reflexivity|]. f_equal. exact IH.
Qed.

Lemma assignFirst_In p f rows k pt :
  In (k, pt) (MemStorage.assignFirst p f rows) ->
  In (k, pt) rows \/ exists pt0, In (k, pt0) rows /\ pt = f pt0.
Proof.
  induction rows as [|[k0 pt0] rows IH]; simpl; [tauto|].
  destruct (p pt0); simpl.
  - intros [E|Hin]; [|tauto]. inversion E; subst. right. exists pt0. tauto.
  - intros [E|Hin]; [tauto|].
    destruct (IH Hin) as [H|(pt1 & H & E)]; [tauto|].
    right. exists pt1. tauto.
Qed.

Lemma assignFirst_map {B} (g : PlaylistTrack.t -> B) p f rows :
  (forall pt, g (f pt) = g pt) ->
  map g (JSMap.values (MemStorage.assignFirst p f rows))
  = map g (JSMap.values rows).
Proof.
  intros Hg. induction rows as [|[k pt] rows IH]; simpl; [reflexivity|].
  destruct (p pt); simpl; [now rewrite Hg|]. f_equal. exact IH.
Qed.

(** The [set] that follows the in-place write finds the row it wrote. *)
Lemma assignFirst_get p f rows found :
  keyed PlaylistTrack.id rows -> NoDup (JSMap.keys rows) ->
  (forall pt, PlaylistTrack.id (f pt) = PlaylistTrack.id pt) ->
  find_first p (JSMap.values rows) = Some found ->
  JSMap.get (PlaylistTrack.id (f found)) (MemStorage.assignFirst p f rows)
  = Some (f found).
Proof.
  intros Hkeyed Hnd Hf. rewrite Hf. unfold find_first.
  induction rows as [|[k pt] rows IH]; simpl; [discriminate|].
  inversion Hnd as [|? ? Hk Hnd']; subst.
  assert (Hpt : PlaylistTrack.id pt = k) by (apply Hkeyed; now left).
  assert (Hrows : keyed PlaylistTrack.id rows)
    by (intros k' v' H; apply Hkeyed; now right).
  destruct (p pt) eqn:Hp.
  - intros [= <-]. simpl. now rewrite Hpt, Z.eqb_refl.
  - intros Hfind. simpl.
    destruct (Z.eqb_spec (PlaylistTrack.id found) k) as [E|_]; [|auto].
    exfalso. apply Hk. apply find_some in Hfind as [Hin _].
    apply In_values in Hin as (k' & Hin).
    rewrite (Hrows _ _ Hin) in E. subst k'. now apply In_keys in Hin.
Qed.

(** ** Every call keeps the store consistent *)

Lemma consistent_fresh : Consistent MemStorage.fresh.
Proof.
  constructor; simpl.
  - intros ? ? [].
  - intros ? ? [].
  - constructor.
  - intros ? [].
  - intros ? [].
  - constructor.
Qed.

(** A change of the link rows to a part of them, on stores whose playlists
    and tracks still hold what the remaining links refer to. *)
Lemma consistent_filter s s' (p : Z * PlaylistTrack.t -> bool) :
  Consistent s ->
  keyed Track.id (MemStorage.tracks s') ->
  MemStorage.playlistTracks s' = filter p (MemStorage.playlistTracks s) ->
  MemStorage.playlistTrackId s' = MemStorage.playlistTrackId s ->
  (forall k pt, In (k, pt) (MemStorage.playlistTracks s) -> p (k, pt) = true ->
     (JSMap.get (PlaylistTrack.playlistId pt) (MemStorage.playlists s) <> None ->
      JSMap.get (PlaylistTrack.playlistId pt) (MemStorage.playlists s') <> None)
     /\
     (JSMap.get (PlaylistTrack.trackId pt) (MemStorage.tracks s) <> None ->
      JSMap.get (PlaylistTrack.trackId pt) (MemStorage.tracks s') <> None)) ->
  Consistent s'.
Proof.
  intros [Ht Hk Hnd Hb Hr Hp] Ht' Erows Eid Hkeep.
  constructor; rewrite ?Erows, ?Eid.
  - exact Ht'.
  - now apply keyed_filter.
  - now apply NoDup_map_filter.
  - now apply below_filter.
  - intros pt Hin. apply In_values in Hin as (k & Hin).
    apply filter_In in Hin as [Hin Hpk].
    destruct (Hkeep _ _ Hin Hpk) as [Hpl Htr].
    destruct (Hr pt) as [H1 H2]; [apply In_values; now exists k|]. auto.
  - unfold JSMap.values in *. rewrite map_map in *.
    now apply NoDup_map_filter.
Qed.

(** A change of the playlists or tracks that keeps every stored id. *)
Lemma consistent_grow s s' :
  Consistent s ->
  keyed Track.id (MemStorage.tracks s') ->
  MemStorage.playlistTracks s' = MemStorage.playlistTracks s ->
  MemStorage.playlistTrackId s' = MemStorage.playlistTrackId s ->
  (forall k, JSMap.get k (MemStorage.playlists s) <> None ->
             JSMap.get k (MemStorage.playlists s') <> None) ->
  (forall k, JSMap.get k (MemStorage.tracks s) <> None ->
             JSMap.get k (MemStorage.tracks s') <> None) ->
  Consistent s'.
Proof.
  intros H Ht' Erows Eid Hpl Htr.
  apply (consistent_filter s s' (fun _ => true)); auto.
  rewrite Erows. clear. induction (MemStorage.playlistTracks s) as [|e l IH];
    simpl; congruence.
Qed.

Lemma links_pairOf playlistId trackId pt :
  MemStorage.links playlistId trackId pt = true
  <-> pairOf pt = (playlistId, trackId).
Proof.
  unfold MemStorage.links, pairOf. rewrite andb_true_iff, !Z.eqb_eq.
  split; [intros [-> ->]; reflexivity|intros [= -> ->]; tauto].
Qed.

Lemma find_links_none playlistId trackId rows :
  find_first (MemStorage.links playlistId trackId) rows = None ->
  ~ In (playlistId, trackId) (map pairOf rows).
Proof.
  intros Hfind Hin. apply in_map_iff in Hin as (pt & E & Hin).
  apply links_pairOf in E.
  pose proof (find_none _ _ Hfind _ Hin). congruence.
Qed.

Lemma NoDup_snoc {A} (l : list A) (x : A) :
  NoDup l -> ~ In x l -> NoDup (l ++ [x])%list.
Proof.
  intros Hl Hx. apply (Permutation_NoDup (l := x :: l)).
  - apply Permutation_cons_append.
  - now constructor.
Qed.

Lemma consistent_createPlaylist s playlist :
  Consistent s -> Consistent (fst (MemStorage.createPlaylist s playlist)).
Proof.
  intros H. apply (consistent_grow s); simpl; auto.
  - apply H.
  - intros k. apply get_set_stays.
Qed.

Lemma consistent_updatePlaylist s id updates :
  Consistent s -> Consistent (fst (MemStorage.updatePlaylist s id updates)).
Proof.
  intros H. unfold MemStorage.updatePlaylist.
  destruct (JSMap.get id (MemStorage.playlists s)); [|exact H].
  apply (consistent_grow s); simpl; auto.
  - apply H.
  - intros k. apply get_set_stays.
Qed.

Lemma consistent_createTrack s track now :
  Consistent s -> Consistent (fst (MemStorage.createTrack s track now)).
Proof.
  intros H. apply (consistent_grow s); simpl; auto.
  - apply keyed_set; [apply H|reflexivity].
  - intros k. apply get_set_stays.
Qed.

Lemma consistent_updateTrack s id updates :
  Consistent s -> Consistent (fst (MemStorage.updateTrack s id updates)).
Proof.
  intros H. unfold MemStorage.updateTrack.
  destruct (JSMap.get id (MemStorage.tracks s)) as [track|] eqn:Hget;
    [|exact H].
  apply (consistent_grow s); simpl; auto.
  - apply keyed_set; [apply H|]. simpl.
    apply (tracks_keyed s H). now apply get_In.
  - intros k. apply get_set_stays.
Qed.

Lemma consistent_deletePlaylist s id :
  Consistent s -> Consistent (fst (MemStorage.deletePlaylist s id)).
Proof.
  intros H.
  apply (consistent_filter s _
           (fun e => negb (PlaylistTrack.playlistId (snd e) =? id)));
    simpl; auto.
  - apply H.
  - apply deleteRows_filter; apply H.
  - intros k pt _ Hp. simpl in Hp. split; [|auto].
    rewrite get_remove_other; [auto|].
    intros E. rewrite E, Z.eqb_refl in Hp. discriminate.
Qed.

Lemma consistent_deleteTrack s id :
  Consistent s -> Consistent (fst (MemStorage.deleteTrack s id)).
Proof.
  intros H.
  apply (consistent_filter s _
           (fun e => negb (PlaylistTrack.trackId (snd e) =? id)));
    simpl; auto.
  - apply keyed_filter, H.
  - apply deleteRows_filter; apply H.
  - intros k pt _ Hp. simpl in Hp. split; [auto|].
    rewrite get_remove_other; [auto|].
    intros E. rewrite E, Z.eqb_refl in Hp. discriminate.
Qed.

Lemma consistent_removeTrackFromPlaylist s playlistId trackId :
  Consistent s ->
  Consistent (fst (MemStorage.removeTrackFromPlaylist s playlistId trackId)).
Proof.
  intros H. unfold MemStorage.removeTrackFromPlaylist.
  destruct (find_first _ _) as [found|]; [|exact H].
  apply (consistent_filter s _
           (fun e => negb (PlaylistTrack.id found =? fst e)));
    simpl; auto.
  apply H.
Qed.

Lemma consistent_addTrackToPlaylist s data :
  Consistent s -> Consistent (fst (MemStorage.addTrackToPlaylist s data)).
Proof.
  intros H. unfold MemStorage.addTrackToPlaylist.
  destruct (JSMap.get _ (MemStorage.playlists s)) eqn:Hpl; [|exact H].
  destruct (JSMap.get _ (MemStorage.tracks s)) eqn:Htr; [|exact H].
  destruct (find_first _ _) eqn:Hfind; [exact H|]. simpl.
  destruct H as [Ht Hk Hnd Hb Hr Hp].
  assert (Hfresh : JSMap.get (MemStorage.playlistTrackId s)
                     (MemStorage.playlistTracks s) = None).
  { apply get_None_keys. intros Hin. apply Hb in Hin. lia. }
  constructor; simpl; rewrite ?(set_absent _ _ _ Hfresh).
  - exact Ht.
  - intros k v Hin. apply in_app_or in Hin as [Hin|[E|[]]]; [now apply Hk|].
    now inversion E.
  - unfold JSMap.keys. rewrite map_app. simpl. apply NoDup_snoc; [exact Hnd|].
    now apply get_None_keys.
  - intros k Hin. unfold JSMap.keys in Hin. rewrite map_app in Hin.
    apply in_app_or in Hin as [Hin|[E|[]]]; [apply Hb in Hin|simpl in E]; lia.
  - intros pt Hin. unfold JSMap.values in Hin. rewrite map_app in Hin.
    apply in_app_or in Hin as [Hin|[E|[]]]; [now apply Hr|].
    simpl in E. subst pt. simpl. rewrite Hpl, Htr. split; discriminate.
  - unfold JSMap.values. rewrite !map_app. simpl. apply NoDup_snoc; [exact Hp|].
    now apply find_links_none.
Qed.

Lemma consistent_updateTrackPosition s playlistId trackId newPosition :
  Consistent s ->
  Consistent
    (fst (MemStorage.updateTrackPosition s playlistId trackId newPosition)).
Proof.
  intros H. unfold MemStorage.updateTrackPosition.
  destruct (find_first _ _) as [found|] eqn:Hfind; [|exact H]. simpl.
  destruct H as [Ht Hk Hnd Hb Hr Hp].
  set (reposition := fun pt => PlaylistTrack.mk _ _ _ newPosition).
  rewrite set_present
    by (apply (assignFirst_get _ reposition _ found Hk Hnd);
        [reflexivity|exact Hfind]).
  constructor; simpl.
  - exact Ht.
  - intros k pt Hin. apply assignFirst_In in Hin as [Hin|(pt0 & Hin & ->)];
      [|change (PlaylistTrack.id pt0 = k)]; now apply Hk.
  - now rewrite assignFirst_keys.
  - intros k. rewrite assignFirst_keys. apply Hb.
  - intros pt Hin. apply In_values in Hin as (k & Hin).
    apply assignFirst_In in Hin as [Hin|(pt0 & Hin & ->)]; simpl;
      apply Hr; apply In_values; now exists k.
  - now rewrite (assignFirst_map pairOf).
Qed.

Lemma consistent_step s c : Consistent s -> Consistent (step s c).
Proof.
  intros H. destruct c as [A c]. unfold step. simpl.
  destruct c; simpl;
    try exact H;
    try (apply (consistent_grow s); simpl; auto; apply H).
  - unfold MemStorage.updateUser.
    destruct (JSMap.get id (MemStorage.users s)); [|exact H].
    apply (consistent_grow s); simpl; auto; apply H.
  - unfold MemStorage.updateCategory.
    destruct (JSMap.get id (MemStorage.categories s)); [|exact H].
    apply (consistent_grow s); simpl; auto; apply H.
  - now apply consistent_createPlaylist.
  - now apply consistent_updatePlaylist.
  - now apply consistent_deletePlaylist.
  - now apply consistent_createTrack.
  - now apply consistent_updateTrack.
  - now apply consistent_deleteTrack.
  - now apply consistent_addTrackToPlaylist.
  - now apply consistent_removeTrackFromPlaylist.
  - now apply consistent_updateTrackPosition.
Qed.

Lemma consistent_run cs s : Consistent s -> Consistent (run cs s).
Proof.
  revert s. induction cs as [|c cs IH]; intros s H; simpl; [exact H|].
  apply IH. now apply consistent_step.
Qed.

Lemma reachable_consistent s : reachable s -> Consistent s.
Proof. intros [cs ->]. apply consistent_run, consistent_fresh. Qed.

(** ** The handlers stay within the reachable stores *)

Lemma reachable_step s c : reachable s -> reachable (step s c).
Proof.
  intros [cs ->]. exists (cs ++ [c])%list. unfold run.
  now rewrite fold_left_app.
Qed.

Lemma reachable_invoke {A} (c : Call.t A) s :
  reachable s -> reachable (fst (invoke c s)).
Proof. apply (reachable_step s (call c)). Qed.

(** The default data are eight calls on the constructor's store. *)
Lemma storage_reachable : reachable storage.
Proof.
  exists
    (call (Call.createUser MemStorage.defaultUser)
     :: map (fun '(name, icon, color) =>
               call (Call.createCategory (InsertCategory.mk name icon color 1)))
            MemStorage.categoryData
     ++ map (fun '(name, icon, color) =>
               call (Call.createPlaylist (InsertPlaylist.mk name 1 color icon)))
            MemStorage.playlistData)%list.
  reflexivity.
Qed.

(** A handler changes the store by calls of the store only. *)
Lemma handle_reachable user req s :
  reachable s -> reachable (fst (Routes.handle user req s)).
Proof.
  intros H.
  destruct req as [|patch| |form|id patch|id| |id|form|id patch|id|categoryId
                  |file form now|id|id|playlistId trackId|playlistId trackId];
    unfold Routes.handle.
  - unfold Routes.get_users_me. now destruct (MemStorage.getUser s user).
  - unfold Routes.patch_users_me. destruct patch as [data|errors]; [|exact H].
    pose proof (reachable_invoke
                  (Call.updateUser user
                     (PartialUser.mk (UserPatch.username data) None
                        (UserPatch.email data) (UserPatch.phone data)
                        (UserPatch.fullName data)
                        (UserPatch.avatarColor data))) s H) as H'.
    simpl in H'. now destruct (MemStorage.updateUser s user _) as [s' [u|]].
  - exact H.
  - unfold Routes.post_categories. destruct form as [form|errors]; [|exact H].
    apply (reachable_invoke (Call.createCategory _) s H).
  - unfold Routes.patch_category.
    destruct (MemStorage.getCategoryById s id); [|exact H].
    destruct (negb _); [exact H|]. destruct patch as [patch|errors]; [|exact H].
    pose proof (reachable_invoke
                  (Call.updateCategory id
                     (PartialCategory.mk (LabelPatch.name patch)
                        (LabelPatch.icon patch) (LabelPatch.color patch) None))
                  s H) as H'.
    simpl in H'. now destruct (MemStorage.updateCategory s id _) as [s' [c|]].
  - unfold Routes.delete_category.
    destruct (MemStorage.getCategoryById s id); [|exact H].
    destruct (negb _); [exact H|].
    pose proof (reachable_invoke (Call.deleteCategory id) s H) as H'.
    change (reachable (fst (MemStorage.deleteCategory s id))) in H'.
    now destruct (MemStorage.deleteCategory s id) as [s' []].
  - exact H.
  - unfold Routes.get_playlist.
    destruct (MemStorage.getPlaylistById s id); [|exact H].
    destruct (negb _); [exact H|].
    now destruct (MemStorage.getPlaylistTracks s id).
  - unfold Routes.post_playlists. destruct form as [form|errors]; [|exact H].
    apply (reachable_invoke (Call.createPlaylist _) s H).
  - unfold Routes.patch_playlist.
    destruct (MemStorage.getPlaylistById s id); [|exact H].
    destruct (negb _); [exact H|]. destruct patch as [patch|errors]; [|exact H].
    pose proof (reachable_invoke
                  (Call.updatePlaylist id
                     (PartialPlaylist.mk (LabelPatch.name patch) None
                        (LabelPatch.color patch) (LabelPatch.icon patch)))
                  s H) as H'.
    simpl in H'. now destruct (MemStorage.updatePlaylist s id _) as [s' [c|]].
  - unfold Routes.delete_playlist.
    destruct (MemStorage.getPlaylistById s id); [|exact H].
    destruct (negb _); [exact H|].
    pose proof (reachable_invoke (Call.deletePlaylist id) s H) as H'.
    change (reachable (fst (MemStorage.deletePlaylist s id))) in H'.
    now destruct (MemStorage.deletePlaylist s id) as [s' []].
  - unfold Routes.get_tracks. destruct categoryId as [c|]; [|exact H].
    destruct (negb _); [|exact H].
    destruct (MemStorage.getCategoryById s c); [|exact H].
    now destruct (negb _).
  - unfold Routes.post_tracks_upload. destruct file as [path|]; [|exact H].
    destruct form as [form|errors]; [|exact H].
    apply (reachable_invoke (Call.createTrack _ now) s H).
  - unfold Routes.get_track_audio.
    destruct (MemStorage.getTrackById s id); [|exact H].
    now destruct (negb _).
  - unfold Routes.delete_track.
    destruct (MemStorage.getTrackById s id); [|exact H].
    destruct (negb _); [exact H|].
    pose proof (reachable_invoke (Call.deleteTrack id) s H) as H'.
    change (reachable (fst (MemStorage.deleteTrack s id))) in H'.
    now destruct (MemStorage.deleteTrack s id) as [s' []].
  - unfold Routes.post_playlist_tracks, Routes.add.
    destruct (MemStorage.getPlaylistById s playlistId); [|exact H].
    destruct (negb _); [exact H|].
    destruct (MemStorage.getPlaylistTracks s playlistId) as [entries|];
      [|exact H].
    destruct (Routes.insertPlaylistTrackSchema _ _ _) as [data|errors];
      [|exact H].
    pose proof (reachable_invoke (Call.addTrackToPlaylist data) s H) as H'.
    simpl in H'.
    now destruct (MemStorage.addTrackToPlaylist s data) as [s' [link|e]].
  - unfold Routes.delete_playlist_track.
    destruct (MemStorage.getPlaylistById s playlistId); [|exact H].
    destruct (negb _); [exact H|].
    pose proof (reachable_invoke
                  (Call.removeTrackFromPlaylist playlistId trackId) s H)
      as H'.
    change (reachable
              (fst (MemStorage.removeTrackFromPlaylist s playlistId trackId)))
      in H'.
    now destruct (MemStorage.removeTrackFromPlaylist s playlistId trackId)
      as [s' []].
Qed.

Lemma serve_reachable reqs s : reachable s -> reachable (serve reqs s).
Proof.
  revert s. induction reqs as [|req reqs IH]; intros s H; simpl; [exact H|].
  apply IH. now apply handle_reachable.
Qed.

(** ** The handlers on the default store *)

Example get_playlist_demo :
  snd (Routes.registerRoutes (GetPlaylist 1) (serve demoRequests storage))
  = Routes.json 200
      (OfPlaylistWithTracks
         (Playlist.mk 1 "Morning Reflections" 1 "#2D46B9" "ri-mic-fill")
         [ (Track.mk 2 "second" 1 (Some 2) 7 "uploads/1-2.webm" 2000, 0);
           (Track.mk 1 "first" 1 (Some 1) 42 "uploads/1-1.webm" 1000, 1) ]).
Proof. reflexivity. Qed.

Example get_users_me_demo :
  snd (Routes.registerRoutes GetUsersMe storage)
  = Routes.json 200
      (OfUser
         (UserData.mk 1 "user" (Some "user@example.com")
            (Some "+1 (555) 123-4567") (Some "Demo User") (Some "#1DB954"))).
Proof. reflexivity. Qed.

Example delete_playlist_demo :
  let s := fst (Routes.registerRoutes (DeletePlaylist 1)
                  (serve demoRequests storage)) in
  MemStorage.playlistTracks s = []
  /\ snd (Routes.registerRoutes (GetPlaylist 1) s)
     = Routes.json 404 (Message "Playlist not found").
Proof. split; reflexivity. Qed.

Example sort_is_stable :
  sort (fun a b => fst a - fst b) [(2, "a"); (1, "b"); (2, "c"); (1, "d")]
  = [(1, "b"); (1, "d"); (2, "a"); (2, "c")].
Proof. reflexivity. Qed.

(** ** Reading a playlist *)

Lemma sort_insert_perm {A} (cmp : A -> A -> Z) x l :
  Permutation (sort_insert cmp x l) (x :: l).
Proof.
  induction l as [|y l IH]; simpl; [reflexivity|].
  destruct (cmp x y <=? 0); [reflexivity|].
  rewrite IH. apply perm_swap.
Qed.

Lemma sort_perm {A} (cmp : A -> A -> Z) l : Permutation (sort cmp l) l.
Proof.
  induction l as [|x l IH]; simpl; [constructor|].
  rewrite sort_insert_perm. now constructor.
Qed.

Lemma filter_perm {A} (p : A -> bool) l l' :
  Permutation l l' -> Permutation (filter p l) (filter p l').
Proof.
  induction 1 as [|x l l' _ IH|x y l|l l' l'' _ IH1 _ IH2]; simpl.
  - constructor.
  - destruct (p x); [now constructor|exact IH].
  - destruct (p x), (p y); try reflexivity. apply perm_swap.
  - now transitivity (filter p l').
Qed.

Lemma Forall2_filter {A B} (R : A -> B -> Prop) p q l l' :
  (forall x y, R x y -> p x = q y) ->
  Forall2 R l l' -> Forall2 R (filter p l) (filter q l').
Proof.
  intros Hpq. induction 1 as [|x y l l' Hxy _ IH]; simpl; [constructor|].
  rewrite (Hpq _ _ Hxy). destruct (q y); [now constructor|exact IH].
Qed.

Lemma map_throw_ok {A B} (f : A -> result B) xs :
  (forall x, In x xs -> exists y, f x = Ok y) ->
  exists ys, map_throw f xs = Ok ys /\ Forall2 (fun x y => f x = Ok y) xs ys.
Proof.
  induction xs as [|x xs IH]; simpl; intros H.
  - exists []. split; [reflexivity|constructor].
  - destruct (H x) as (y & Hy); [now left|].
    destruct IH as (ys & E & Hall); [intros x' Hx'; apply H; now right|].
    exists (y :: ys). rewrite Hy, E. split; [reflexivity|now constructor].
Qed.

(** On a consistent store the listing of a playlist does not throw: it is
    a rearrangement of one entry per link of the playlist. *)
Lemma getPlaylistTracks_ok s playlistId :
  Consistent s ->
  exists unsorted,
    MemStorage.getPlaylistTracks s playlistId
    = Ok (sort (fun a b => TrackAt.position a - TrackAt.position b) unsorted)
    /\ Forall2 (entryOf s)
         (filter (fun pt => PlaylistTrack.playlistId pt =? playlistId)
                 (JSMap.values (MemStorage.playlistTracks s)))
         unsorted.
Proof.
  intros H. unfold MemStorage.getPlaylistTracks.
  destruct (map_throw_ok (MemStorage.resolveTrack s)
              (filter (fun pt => PlaylistTrack.playlistId pt =? playlistId)
                      (JSMap.values (MemStorage.playlistTracks s))))
    as (ys & E & Hall).
  - intros pt Hin. apply filter_In in Hin as [Hin _].
    apply (links_refer s H) in Hin as [_ Htr]. unfold MemStorage.resolveTrack.
    destruct (JSMap.get _ (MemStorage.tracks s)); [eauto|congruence].
  - exists ys. rewrite E. split; [reflexivity|].
    eapply Forall2_impl; [|exact Hall]. intros pt e. cbv beta.
    unfold MemStorage.resolveTrack, entryOf.
    destruct (JSMap.get _ (MemStorage.tracks s)) as [track|] eqn:Hget;
      [|discriminate].
    intros [= <-]. simpl. repeat split.
    apply (tracks_keyed s H). now apply get_In.
Qed.

Lemma NoDup_map_eq {A B} (f : A -> B) l x y :
  NoDup (map f l) -> In x l -> In y l -> f x = f y -> x = y.
Proof.
  induction l as [|a l IH]; simpl; [tauto|].
  intros Hnd. inversion Hnd as [|? ? Ha Hl]; subst.
  intros [->|Hx] [->|Hy] E; auto.
  - exfalso. apply Ha. rewrite E. now apply in_map.
  - exfalso. apply Ha. rewrite <- E. now apply in_map.
Qed.

Lemma filter_nil {A} (p : A -> bool) l :
  (forall y, In y l -> p y = false) -> filter p l = [].
Proof.
  induction l as [|a l IH]; simpl; intros H; [reflexivity|].
  rewrite (H a) by now left. apply IH. intros y Hy. apply H. now right.
Qed.

Lemma filter_unique {A B} (f : A -> B) (p : A -> bool) l x :
  NoDup (map f l) -> In x l ->
  (forall y, p y = true <-> f y = f x) ->
  filter p l = [x].
Proof.
  intros Hnd Hin Hp. induction l as [|a l IH]; simpl in *; [tauto|].
  inversion Hnd as [|? ? Ha Hl]; subst. destruct Hin as [->|Hin].
  - rewrite (proj2 (Hp x) eq_refl). f_equal. apply filter_nil.
    intros y Hy. apply not_true_is_false. intros Hpy. apply Hp in Hpy.
    apply Ha. rewrite <- Hpy. now apply in_map.
  - destruct (p a) eqn:Hpa; [|now apply IH].
    exfalso. apply Hp in Hpa. apply Ha. rewrite Hpa. now apply in_map.
Qed.


Lemma find_filter {A} (p : A -> bool) l x :
  filter p l = [x] -> find p l = Some x.
Proof.
  induction l as [|a l IH]; simpl; [discriminate|].
  destruct (p a); [now intros [= ->]|exact IH].
Qed.

Lemma rowsFor_unique s link :
  Consistent s ->
  In link (JSMap.values (MemStorage.playlistTracks s)) ->
  rowsFor (PlaylistTrack.playlistId link) (PlaylistTrack.trackId link) s
  = [link].
Proof.
  intros H Hin. apply (filter_unique pairOf); [apply H|exact Hin|].
  intros y. apply links_pairOf.
Qed.

(** ** C1: adding a linked pair again *)

(** C1. On a store built by any sequence of calls, [addTrackToPlaylist] for
    the pair of a stored link returns that link and leaves the store as it
    was: the table still has one row for the pair, and the listing of the
    playlist has exactly one entry for the track, at the position the link
    had. *)
Theorem addTrackToPlaylist_existing
  (cs : list AnyCall) (link : PlaylistTrack.t) (position : Z) :
  let s := run cs MemStorage.fresh in
  let P := PlaylistTrack.playlistId link in
  let T := PlaylistTrack.trackId link in
  let after :=
    fst (MemStorage.addTrackToPlaylist s
           (InsertPlaylistTrack.mk P T position)) in
  In link (JSMap.values (MemStorage.playlistTracks s)) ->
  MemStorage.addTrackToPlaylist s (InsertPlaylistTrack.mk P T position)
  = (s, Ok link)
  /\ rowsFor P T after = [link]
  /\ exists entry entries,
       MemStorage.getPlaylistTracks after P = Ok entries
       /\ entriesFor T entries = [entry]
       /\ TrackAt.position entry = PlaylistTrack.position link.
Proof.
  intros s P T after Hin.
  assert (H : Consistent s) by apply consistent_run, consistent_fresh.
  assert (Hrows : rowsFor P T s = [link]) by now apply rowsFor_unique.
  assert (Hadd : MemStorage.addTrackToPlaylist s
                   (InsertPlaylistTrack.mk P T position) = (s, Ok link)).
  { unfold MemStorage.addTrackToPlaylist. simpl.
    destruct (links_refer s H link Hin) as [Hpl Htr]. fold P T in Hpl, Htr.
    destruct (JSMap.get P (MemStorage.playlists s)); [|congruence].
    destruct (JSMap.get T (MemStorage.tracks s)); [|congruence].
    unfold find_first. now rewrite (find_filter _ _ _ Hrows). }
  subst after. rewrite Hadd. simpl. repeat split; [exact Hrows|].
  destruct (getPlaylistTracks_ok s P H) as (unsorted & E & Hall).
  apply (Forall2_filter _ (fun pt => PlaylistTrack.trackId pt =? T)
           (fun e => Track.id (TrackAt.track e) =? T)) in Hall.
  2:{ intros pt e (_ & Hid & _). now rewrite Hid. }
  rewrite filter_filter in Hall. change (filter _ (JSMap.values _))
    with (rowsFor P T s) in Hall. rewrite Hrows in Hall.
  inversion Hall as [|? entry ? rest Hentry Hrest E1 E2]; subst.
  inversion Hrest; subst.
  exists entry. eexists. split; [exact E|]. split; [|apply Hentry].
  unfold entriesFor. apply Permutation_length_1_inv.
  rewrite E2. apply filter_perm. symmetry. apply sort_perm.
Qed.

Lemma addTrackToPlaylist_existing_witness :
  let link := PlaylistTrack.mk 1 1 1 0 in
  In link (JSMap.values
             (MemStorage.playlistTracks (run demoLinked MemStorage.fresh)))
  /\ MemStorage.addTrackToPlaylist (run demoLinked MemStorage.fresh)
       (InsertPlaylistTrack.mk 1 1 7)
     = (run demoLinked MemStorage.fresh, Ok link).
Proof.
  split; [left; reflexivity|].
  apply (addTrackToPlaylist_existing demoLinked (PlaylistTrack.mk 1 1 1 0) 7).
  left; reflexivity.
Defined.

(** ** C2: the position of a new link *)







Lemma columnIssues_accepted path n :
  Routes.integerColumn n = true -> Routes.columnIssues path n = [].
Proof.
  unfold Routes.integerColumn, Routes.columnIssues. intros H.
  apply andb_true_iff in H as [Hlo Hhi].
  apply Z.leb_le in Hlo, Hhi.
  destruct (Z.ltb_spec n (-2147483648)); [lia|].
  destruct (Z.ltb_spec 2147483647 n); [lia|reflexivity].
Qed.

Lemma insertPlaylistTrackSchema_accepted playlistId trackId position :
  Routes.integerColumn playlistId = true ->
  Routes.integerColumn trackId = true ->
  Routes.integerColumn position = true ->
  Routes.insertPlaylistTrackSchema playlistId (Valid trackId) position
  = Valid (InsertPlaylistTrack.mk playlistId trackId position).
Proof.
  intros Hp Ht Hn. unfold Routes.insertPlaylistTrackSchema.
  now rewrite !columnIssues_accepted.
Qed.








(** ** C3: the cascade of a deletion *)

Lemma deleteRows_values (doomed : PlaylistTrack.t -> bool) s :
  Consistent s ->
  JSMap.values (MemStorage.deleteRows doomed (MemStorage.playlistTracks s))
  = filter (fun pt => negb (doomed pt))
           (JSMap.values (MemStorage.playlistTracks s)).
Proof.
  intros H. rewrite deleteRows_filter by apply H.
  apply (map_filter_snd (fun pt => negb (doomed pt))).
Qed.

Lemma filter_negb_nil {A} (p : A -> bool) l :
  filter p (filter (fun x => negb (p x)) l) = [].
Proof.
  apply filter_nil. intros y Hy. apply filter_In in Hy as [_ Hy].
  now apply negb_true_iff in Hy.
Qed.

(** C3. On a store built by any sequence of calls, the one call
    [deletePlaylist(P)] leaves the link rows whose [playlistId] is not [P],
    in their order, and no row whose [playlistId] is [P], and the playlist is
    gone: the listing of [P] is then empty.  The one call [deleteTrack(T)]
    leaves the link rows whose [trackId] is not [T] and no other, and the
    track is gone. *)
Theorem delete_cascades (cs : list AnyCall) (P T : Z) :
  let s := run cs MemStorage.fresh in
  (let s' := fst (MemStorage.deletePlaylist s P) in
   JSMap.values (MemStorage.playlistTracks s')
   = filter (fun pt => negb (PlaylistTrack.playlistId pt =? P))
            (JSMap.values (MemStorage.playlistTracks s))
   /\ (forall pt, In pt (JSMap.values (MemStorage.playlistTracks s')) ->
         PlaylistTrack.playlistId pt <> P)
   /\ MemStorage.getPlaylistById s' P = None
   /\ MemStorage.getPlaylistTracks s' P = Ok [])
  /\
  (let s' := fst (MemStorage.deleteTrack s T) in
   JSMap.values (MemStorage.playlistTracks s')
   = filter (fun pt => negb (PlaylistTrack.trackId pt =? T))
            (JSMap.values (MemStorage.playlistTracks s))
   /\ (forall pt, In pt (JSMap.values (MemStorage.playlistTracks s')) ->
         PlaylistTrack.trackId pt <> T)
   /\ MemStorage.getTrackById s' T = None).
Proof.
  intros s.
  assert (H : Consistent s) by apply consistent_run, consistent_fresh.
  split; cbv zeta.
  - assert (E : JSMap.values
                  (MemStorage.playlistTracks
                     (fst (MemStorage.deletePlaylist s P)))
                = filter (fun pt => negb (PlaylistTrack.playlistId pt =? P))
                         (JSMap.values (MemStorage.playlistTracks s)))
      by apply (deleteRows_values _ s H).
    split; [exact E|]. split; [|split].
    + intros pt Hin. rewrite E in Hin. apply filter_In in Hin as [_ Hp].
      apply negb_true_iff in Hp. now apply Z.eqb_neq.
    + apply get_remove_same.
    + unfold MemStorage.getPlaylistTracks. rewrite E.
      now rewrite (filter_negb_nil (fun pt => PlaylistTrack.playlistId pt =? P)).
  - assert (E : JSMap.values
                  (MemStorage.playlistTracks (fst (MemStorage.deleteTrack s T)))
                = filter (fun pt => negb (PlaylistTrack.trackId pt =? T))
                         (JSMap.values (MemStorage.playlistTracks s)))
      by apply (deleteRows_values _ s H).
    split; [exact E|]. split.
    + intros pt Hin. rewrite E in Hin. apply filter_In in Hin as [_ Hp].
      apply negb_true_iff in Hp. now apply Z.eqb_neq.
    + apply get_remove_same.
Qed.

(** ** C4: ids *)

Lemma counter_step entity s c : counter entity s <= counter entity (step s c).
Proof.
  destruct c as [A c]. unfold step. simpl.
  destruct c; simpl; try lia; destruct entity; simpl; try lia.
  all: try (unfold MemStorage.updateUser;
            destruct (JSMap.get _ (MemStorage.users s)); simpl; lia).
  all: try (unfold MemStorage.updateCategory;
            destruct (JSMap.get _ (MemStorage.categories s)); simpl; lia).
  all: try (unfold MemStorage.updatePlaylist;
            destruct (JSMap.get _ (MemStorage.playlists s)); simpl; lia).
  all: try (unfold MemStorage.updateTrack;
            destruct (JSMap.get _ (MemStorage.tracks s)); simpl; lia).
  all: try (unfold MemStorage.addTrackToPlaylist;
            destruct (JSMap.get _ (MemStorage.playlists s));
            [destruct (JSMap.get _ (MemStorage.tracks s));
             [destruct (find_first _ _)|]|]; simpl; lia).
  all: try (unfold MemStorage.removeTrackFromPlaylist;
            destruct (find_first _ _); simpl; lia).
  all: unfold MemStorage.updateTrackPosition;
    destruct (find_first _ _); simpl; lia.
Qed.

(** A call that makes a row gives it the counter's value and moves the
    counter past it. *)
Lemma assigned_counter {A} (c : Call.t A) s entity id :
  assigned c s = Some (entity, id) ->
  id = counter entity s /\ id < counter entity (step s (call c)).
Proof.
  unfold step. destruct c; simpl; try discriminate.
  1-4: intros [= <- <-]; simpl; lia.
  unfold MemStorage.addTrackToPlaylist.
  destruct (JSMap.get _ (MemStorage.playlists s)); [|discriminate].
  destruct (JSMap.get _ (MemStorage.tracks s)); [|discriminate].
  unfold find_first.
  destruct (find _ _) eqn:Hfind.
  - apply find_some in Hfind as [Hin Hp].
    rewrite (proj2 (existsb_exists _ _)) by eauto. discriminate.
  - apply find_some_existsb in Hfind. rewrite Hfind.
    intros [= <- <-]. simpl. lia.
Qed.

Lemma assignedIds_sorted entity cs s :
  Forall (fun id => counter entity s <= id) (assignedIds entity cs s)
  /\ StronglySorted Z.lt (assignedIds entity cs s).
Proof.
  revert s. induction cs as [|[A c] cs IH]; intros s; simpl.
  - split; constructor.
  - change (existT _ A c) with (call c).
    destruct (IH (step s (call c))) as [Hlow Hsorted].
    pose proof (counter_step entity s (call c)) as Hstep.
    assert (Hrest : Forall (fun id => counter entity s <= id)
                      (assignedIds entity cs (step s (call c)))).
    { eapply Forall_impl; [|exact Hlow]. cbv beta. intros. lia. }
    destruct (assigned c s) as [[e id]|] eqn:Hassigned; [|now split].
    destruct (Entity_eqb entity e) eqn:He; [|now split].
    assert (e = entity) as -> by (destruct e, entity; now try discriminate).
    apply assigned_counter in Hassigned as [-> Hnext].
    split; constructor; try assumption; [lia|].
    eapply Forall_impl; [|exact Hlow]. cbv beta. intros. lia.
Qed.

Lemma makes_assigned entity c s :
  makes entity c = true ->
  exists id, assigned (projT2 c) s = Some (entity, id).
Proof.
  destruct c as [A c]. unfold makes. simpl.
  destruct c, entity; try discriminate; intros _; simpl; eauto.
Qed.

Lemma StronglySorted_lt_NoDup l : StronglySorted Z.lt l -> NoDup l.
Proof.
  induction 1 as [|x l _ IH Hx]; constructor; [|exact IH].
  intros Hin. rewrite Forall_forall in Hx. specialize (Hx _ Hin). lia.
Qed.

(** C4. For each of the five entities and for every sequence of calls, run
    from the constructor's store or from any other, the ids given to new
    rows are strictly increasing in the order of the calls: each is greater
    than every id given before it, deletions in between or not; so they are
    pairwise distinct, each not below the counter at the start, and every
    create call of the entity contributes one. *)
Theorem assigned_ids_increase
  (entity : Entity) (cs : list AnyCall) (s : MemStorage.t) :
  StronglySorted Z.lt (assignedIds entity cs s)
  /\ NoDup (assignedIds entity cs s)
  /\ Forall (fun id => counter entity s <= id) (assignedIds entity cs s)
  /\ (List.length (filter (makes entity) cs)
      <= List.length (assignedIds entity cs s))%nat.
Proof.
  destruct (assignedIds_sorted entity cs s) as [Hlow Hsorted].
  split; [exact Hsorted|]. split; [now apply StronglySorted_lt_NoDup|].
  split; [exact Hlow|]. clear. revert s.
  induction cs as [|c cs IH]; intros s; simpl; [lia|].
  specialize (IH (step s c)).
  destruct (makes entity c) eqn:Hmakes.
  - destruct (makes_assigned entity c s Hmakes) as (id & ->).
    assert (Entity_eqb entity entity = true) as -> by now destruct entity.
    simpl. lia.
  - destruct (assigned (projT2 c) s) as [[e id]|]; [|exact IH].
    destruct (Entity_eqb entity e); simpl; lia.
Qed.

Example assignedIds_after_delete :
  assignedIds ATrack
    [ call (Call.createTrack (demoTrack "first" 1 None) 1000);
      call (Call.deleteTrack 1);
      call (Call.createTrack (demoTrack "second" 1 None) 2000) ]
    MemStorage.fresh
  = [1; 2].
Proof. reflexivity. Qed.

(** ** C5: adding to a missing playlist or a missing track *)

(** C5. On any store, [addTrackToPlaylist] throws when the playlist or the
    track of the pair is not stored, and the store stays as it was, so no
    link row is made: the error is "Playlist not found" when the playlist is
    missing and "Track not found" when the playlist is stored and the track
    is missing. *)
Theorem addTrackToPlaylist_not_found
  (s : MemStorage.t) (data : InsertPlaylistTrack.t) :
  let P := InsertPlaylistTrack.playlistId data in
  let T := InsertPlaylistTrack.trackId data in
  MemStorage.getPlaylistById s P = None \/ MemStorage.getTrackById s T = None ->
  exists e,
    MemStorage.addTrackToPlaylist s data = (s, Throw e)
    /\ (MemStorage.getPlaylistById s P = None -> e = PlaylistNotFound P)
    /\ (MemStorage.getPlaylistById s P <> None -> e = TrackNotFound T).
Proof.
  intros P T. unfold MemStorage.addTrackToPlaylist, MemStorage.getPlaylistById,
    MemStorage.getTrackById. fold P T.
  destruct (JSMap.get P (MemStorage.playlists s)) as [playlist|].
  - intros [Hpl|Htr]; [discriminate|]. rewrite Htr.
    exists (TrackNotFound T). split; [reflexivity|]. split; [discriminate|].
    reflexivity.
  - intros _. exists (PlaylistNotFound P). split; [reflexivity|].
    split; [reflexivity|congruence].
Qed.

Lemma addTrackToPlaylist_not_found_witness :
  let s := run demoSetup MemStorage.fresh in
  (MemStorage.getPlaylistById s 1 = None \/ MemStorage.getTrackById s 99 = None)
  /\ exists e,
      MemStorage.addTrackToPlaylist s (InsertPlaylistTrack.mk 1 99 0)
      = (s, Throw e).
Proof.
  assert (H : MemStorage.getPlaylistById (run demoSetup MemStorage.fresh) 1
              = None
              \/ MemStorage.getTrackById (run demoSetup MemStorage.fresh) 99
                 = None) by (right; reflexivity).
  split; [exact H|].
  destruct (addTrackToPlaylist_not_found (run demoSetup MemStorage.fresh)
              (InsertPlaylistTrack.mk 1 99 0) H) as (e & E & _).
  exists e. exact E.
Defined.

(** What the handler makes of the two errors: a missing playlist is answered
    before the store is asked, with status 404; for a missing track the
    store stays as it was and the answer is 400 when the schema rejects the
    link, and otherwise 500, the store's error being caught. *)
Lemma post_playlist_tracks_not_found user playlistId trackId s :
  (MemStorage.getPlaylistById s playlistId = None ->
   Routes.post_playlist_tracks user playlistId (Valid trackId) s
   = (s, Routes.json 404 (Message "Playlist not found")))
  /\ (forall playlist,
        MemStorage.getPlaylistById s playlistId = Some playlist ->
        Playlist.userId playlist = user ->
        MemStorage.getTrackById s trackId = None ->
        let answer :=
          Routes.post_playlist_tracks user playlistId (Valid trackId) s in
        fst answer = s
        /\ (status (snd answer) = 500 \/ status (snd answer) = 400)
        /\ (Routes.integerColumn playlistId = true ->
            Routes.integerColumn trackId = true ->
            (forall entries,
               MemStorage.getPlaylistTracks s playlistId = Ok entries ->
               Routes.integerColumn (Routes.maxPosition entries + 1) = true) ->
            status (snd answer) = 500)).
Proof.
  unfold Routes.post_playlist_tracks. split.
  - now intros ->.
  - intros playlist -> <- Htr. rewrite Z.eqb_refl. simpl. unfold Routes.add.
    destruct (MemStorage.getPlaylistTracks s playlistId) as [entries|];
      [|split; [reflexivity|split; [now left|reflexivity]]].
    destruct (Routes.insertPlaylistTrackSchema _ _ _) as [data|errors] eqn:E.
    + assert (Hdata : data = InsertPlaylistTrack.mk playlistId trackId
                               (Routes.maxPosition entries + 1)).
      { unfold Routes.insertPlaylistTrackSchema in E.
        destruct (_ ++ _)%list; now inversion E. }
      subst data. unfold MemStorage.addTrackToPlaylist. simpl.
      unfold MemStorage.getPlaylistById, MemStorage.getTrackById in *.
      destruct (JSMap.get playlistId (MemStorage.playlists s));
        [|split; [reflexivity|split; [now left|reflexivity]]].
      rewrite Htr. split; [reflexivity|split; [now left|reflexivity]].
    + split; [reflexivity|]. split; [now right|].
      intros HP HT Hfit.
      rewrite (insertPlaylistTrackSchema_accepted _ _ _ HP HT
                 (Hfit entries eq_refl)) in E.
      discriminate E.
Qed.

(** ** C6: partial updates *)

Lemma keys_set_present {V} k (v v0 : V) m :
  JSMap.get k m = Some v0 -> JSMap.keys (JSMap.set k v m) = JSMap.keys m.
Proof.
  induction m as [|[k' v'] m IH]; simpl; [discriminate|].
  destruct (Z.eqb_spec k k') as [->|_]; simpl; [reflexivity|].
  intros H. now rewrite IH.
Qed.

Lemma rowReplaced_set {V} k (v v0 : V) m :
  JSMap.get k m = Some v0 -> rowReplaced k v m (JSMap.set k v m).
Proof.
  intros H. split; [apply get_set_same|]. split.
  - intros k' Hne. now apply get_set_other.
  - now apply (keys_set_present k v v0).
Qed.

Lemma provided_merge {A} (old : A) upd : provided old (merge old upd) upd.
Proof. now destruct upd. Qed.

(** C6. On any store and for each of the four entities with an update:
    for an id that is not stored the update returns nothing and the store is
    as it was; for a stored id it returns the row it stores under that id,
    in which every provided field has the provided value and every other
    field, the id among them and for a track the creation time, has its old
    value, while no other row, key, table or counter changes. *)
Theorem update_changes_provided_fields
  (s : MemStorage.t) (id : Z) (uu : PartialUser.t) (uc : PartialCategory.t)
  (up : PartialPlaylist.t) (ut : PartialTrack.t) :
  match MemStorage.getUser s id with
  | None => MemStorage.updateUser s id uu = (s, None)
  | Some old =>
      let s' := fst (MemStorage.updateUser s id uu) in
      exists new,
        snd (MemStorage.updateUser s id uu) = Some new
        /\ userUpdated old new uu
        /\ rowReplaced id new (MemStorage.users s) (MemStorage.users s')
        /\ setUsers (MemStorage.users s) s' = s
  end
  /\ match MemStorage.getCategoryById s id with
     | None => MemStorage.updateCategory s id uc = (s, None)
     | Some old =>
         let s' := fst (MemStorage.updateCategory s id uc) in
         exists new,
           snd (MemStorage.updateCategory s id uc) = Some new
           /\ categoryUpdated old new uc
           /\ rowReplaced id new (MemStorage.categories s)
                (MemStorage.categories s')
           /\ setCategories (MemStorage.categories s) s' = s
     end
  /\ match MemStorage.getPlaylistById s id with
     | None => MemStorage.updatePlaylist s id up = (s, None)
     | Some old =>
         let s' := fst (MemStorage.updatePlaylist s id up) in
         exists new,
           snd (MemStorage.updatePlaylist s id up) = Some new
           /\ playlistUpdated old new up
           /\ rowReplaced id new (MemStorage.playlists s)
                (MemStorage.playlists s')
           /\ setPlaylists (MemStorage.playlists s) s' = s
     end
  /\ match MemStorage.getTrackById s id with
     | None => MemStorage.updateTrack s id ut = (s, None)
     | Some old =>
         let s' := fst (MemStorage.updateTrack s id ut) in
         exists new,
           snd (MemStorage.updateTrack s id ut) = Some new
           /\ trackUpdated old new ut
           /\ rowReplaced id new (MemStorage.tracks s) (MemStorage.tracks s')
           /\ setTracks (MemStorage.tracks s) s' = s
     end.
Proof.
  unfold MemStorage.getUser, MemStorage.getCategoryById,
    MemStorage.getPlaylistById, MemStorage.getTrackById,
    MemStorage.updateUser, MemStorage.updateCategory,
    MemStorage.updatePlaylist, MemStorage.updateTrack.
  repeat apply conj.
  - destruct (JSMap.get id (MemStorage.users s)) as [old|] eqn:Hget;
      [|reflexivity].
    eexists. split; [reflexivity|]. split; [|split].
    + unfold userUpdated; simpl. repeat split; apply provided_merge.
    + now apply (rowReplaced_set id _ old).
    + now destruct s.
  - destruct (JSMap.get id (MemStorage.categories s)) as [old|] eqn:Hget;
      [|reflexivity].
    eexists. split; [reflexivity|]. split; [|split].
    + unfold categoryUpdated; simpl. repeat split; apply provided_merge.
    + now apply (rowReplaced_set id _ old).
    + now destruct s.
  - destruct (JSMap.get id (MemStorage.playlists s)) as [old|] eqn:Hget;
      [|reflexivity].
    eexists. split; [reflexivity|]. split; [|split].
    + unfold playlistUpdated; simpl. repeat split; apply provided_merge.
    + now apply (rowReplaced_set id _ old).
    + now destruct s.
  - destruct (JSMap.get id (MemStorage.tracks s)) as [old|] eqn:Hget;
      [|reflexivity].
    eexists. split; [reflexivity|]. split; [|split].
    + unfold trackUpdated; simpl. repeat split; apply provided_merge.
    + now apply (rowReplaced_set id _ old).
    + now destruct s.
Qed.

(** ** C7: the password and the responses *)

Lemma get_withPassword id password k (m : JSMap.t User.t) :
  JSMap.get k
    (map (fun e => if fst e =? id then (fst e, setPassword password (snd e))
                   else e) m)
  = option_map (fun u => if k =? id then setPassword password u else u)
               (JSMap.get k m).
Proof.
  induction m as [|[k' u] m IH]; simpl; [reflexivity|].
  destruct (Z.eqb_spec k' id) as [->|Hne]; simpl.
  - destruct (Z.eqb_spec k id) as [->|_]; [reflexivity|exact IH].
  - destruct (Z.eqb_spec k k') as [->|_]; [|exact IH].
    destruct (Z.eqb_spec k' id); [contradiction|reflexivity].
Qed.

Lemma set_withPassword id password k (u : User.t) (m : JSMap.t User.t) :
  JSMap.set k (if k =? id then setPassword password u else u)
    (map (fun e => if fst e =? id then (fst e, setPassword password (snd e))
                   else e) m)
  = map (fun e => if fst e =? id then (fst e, setPassword password (snd e))
                  else e)
        (JSMap.set k u m).
Proof.
  induction m as [|[k' u'] m IH]; simpl; [now destruct (k =? id)|].
  destruct (Z.eqb_spec k k') as [->|Hk].
  - destruct (Z.eqb_spec k' id) as [->|Hne]; simpl.
    + now rewrite !Z.eqb_refl.
    + rewrite Z.eqb_refl. simpl. now destruct (Z.eqb_spec k' id).
  - destruct (Z.eqb_spec k' id) as [->|Hne]; simpl.
    + destruct (Z.eqb_spec k id) as [->|_]; [contradiction|].
      rewrite Z.eqb_refl. now rewrite <- IH.
    + destruct (Z.eqb_spec k k'); [contradiction|].
      destruct (Z.eqb_spec k' id); [contradiction|]. now rewrite <- IH.
Qed.

Ltac split_cases :=
  repeat (simpl;
          match goal with
          | |- context [match ?x with _ => _ end] => destruct x eqn:?
          end);
  simpl; try (split; reflexivity).

(** The handlers of [/users/me] answer the same on two stores that differ
    in the password of a user, and leave stores that differ in it only. *)
Lemma users_me_withPassword user who password s :
  Routes.get_users_me user (withPassword who password s)
  = (withPassword who password (fst (Routes.get_users_me user s)),
     snd (Routes.get_users_me user s))
  /\ forall body,
       Routes.patch_users_me user body (withPassword who password s)
       = (withPassword who password (fst (Routes.patch_users_me user body s)),
          snd (Routes.patch_users_me user body s)).
Proof.
  split.
  - unfold Routes.get_users_me, MemStorage.getUser. simpl.
    rewrite get_withPassword.
    destruct (JSMap.get user (MemStorage.users s)) as [u|]; simpl;
      [|reflexivity].
    now destruct (user =? who).
  - intros [data|errors]; simpl; [|reflexivity].
    unfold MemStorage.updateUser. simpl. rewrite get_withPassword.
    destruct (JSMap.get user (MemStorage.users s)) as [u|]; simpl;
      [|reflexivity].
    unfold withPassword. simpl. rewrite <- set_withPassword.
    now destruct (user =? who).
Qed.

(** The methods that the other handlers call do not read the users. *)
Lemma store_withPassword user password s :
  (forall id u,
     MemStorage.updateCategory (withPassword user password s) id u
     = (withPassword user password (fst (MemStorage.updateCategory s id u)),
        snd (MemStorage.updateCategory s id u)))
  /\ (forall id u,
        MemStorage.updatePlaylist (withPassword user password s) id u
        = (withPassword user password (fst (MemStorage.updatePlaylist s id u)),
           snd (MemStorage.updatePlaylist s id u)))
  /\ (forall data,
        MemStorage.addTrackToPlaylist (withPassword user password s) data
        = (withPassword user password
             (fst (MemStorage.addTrackToPlaylist s data)),
           snd (MemStorage.addTrackToPlaylist s data)))
  /\ (forall playlistId trackId,
        MemStorage.removeTrackFromPlaylist (withPassword user password s)
          playlistId trackId
        = (withPassword user password
             (fst (MemStorage.removeTrackFromPlaylist s playlistId trackId)),
           snd (MemStorage.removeTrackFromPlaylist s playlistId trackId)))
  /\ (forall playlistId,
        MemStorage.getPlaylistTracks (withPassword user password s) playlistId
        = MemStorage.getPlaylistTracks s playlistId).
Proof.
  repeat apply conj; intros.
  - unfold MemStorage.updateCategory. simpl.
    now destruct (JSMap.get id (MemStorage.categories s)).
  - unfold MemStorage.updatePlaylist. simpl.
    now destruct (JSMap.get id (MemStorage.playlists s)).
  - unfold MemStorage.addTrackToPlaylist. simpl.
    destruct (JSMap.get _ (MemStorage.playlists s)); [|reflexivity].
    destruct (JSMap.get _ (MemStorage.tracks s)); [|reflexivity].
    now destruct (find_first _ _).
  - unfold MemStorage.removeTrackFromPlaylist. simpl.
    now destruct (find_first _ _).
  - reflexivity.
Qed.

(** C7. For every caller, every request to any endpoint and every store, the
    response (status and body) is the same on the store and on the store
    with any other password for any one user, the caller included, and the
    two stores that the handler leaves differ in that password only: no
    response depends on a password, after any number of requests.
    [GET /users/me] and [PATCH /users/me] are two of the endpoints. *)
Theorem responses_ignore_password
  (user who : Z) (password : string) (req : Request) (s : MemStorage.t) :
  snd (Routes.handle user req (withPassword who password s))
  = snd (Routes.handle user req s)
  /\ fst (Routes.handle user req (withPassword who password s))
     = withPassword who password (fst (Routes.handle user req s)).
Proof.
  destruct (users_me_withPassword user who password s) as [Hget Hpatch].
  destruct (store_withPassword who password s)
    as (HupdC & HupdP & Hadd & Hremove & Hlist).
  destruct req as [|patch| |form|id patch|id| |id|form|id patch|id|categoryId
                  |file form now|id|id|playlistId trackId|playlistId trackId];
    unfold Routes.handle.
  - rewrite Hget. split; reflexivity.
  - rewrite Hpatch. split; reflexivity.
  - split; reflexivity.
  - unfold Routes.post_categories. split_cases.
  - unfold Routes.patch_category, MemStorage.getCategoryById. simpl.
    destruct (JSMap.get id (MemStorage.categories s)); [|split; reflexivity].
    destruct (negb _); [split; reflexivity|].
    destruct patch as [patch|errors]; [|split; reflexivity].
    rewrite HupdC. destruct (MemStorage.updateCategory s id _) as [s' [c|]];
      split; reflexivity.
  - unfold Routes.delete_category, MemStorage.getCategoryById. split_cases.
  - split; reflexivity.
  - unfold Routes.get_playlist, MemStorage.getPlaylistById. rewrite Hlist.
    split_cases.
  - unfold Routes.post_playlists. split_cases.
  - unfold Routes.patch_playlist, MemStorage.getPlaylistById. simpl.
    destruct (JSMap.get id (MemStorage.playlists s)); [|split; reflexivity].
    destruct (negb _); [split; reflexivity|].
    destruct patch as [patch|errors]; [|split; reflexivity].
    rewrite HupdP. destruct (MemStorage.updatePlaylist s id _) as [s' [c|]];
      split; reflexivity.
  - unfold Routes.delete_playlist, MemStorage.getPlaylistById. split_cases.
  - unfold Routes.get_tracks, MemStorage.getCategoryById. split_cases.
  - unfold Routes.post_tracks_upload. split_cases.
  - unfold Routes.get_track_audio, MemStorage.getTrackById. split_cases.
  - unfold Routes.delete_track, MemStorage.getTrackById. split_cases.
  - unfold Routes.post_playlist_tracks, MemStorage.getPlaylistById, Routes.add.
    rewrite Hlist. simpl.
    destruct (JSMap.get playlistId (MemStorage.playlists s));
      [|split; reflexivity].
    destruct (negb _); [split; reflexivity|].
    destruct (MemStorage.getPlaylistTracks s playlistId);
      [|split; reflexivity].
    destruct (Routes.insertPlaylistTrackSchema _ _ _) as [data|errors];
      [|split; reflexivity].
    rewrite Hadd.
    destruct (MemStorage.addTrackToPlaylist s data) as [s' [link|e]];
      split; reflexivity.
  - unfold Routes.delete_playlist_track, MemStorage.getPlaylistById. simpl.
    destruct (JSMap.get playlistId (MemStorage.playlists s));
      [|split; reflexivity].
    destruct (negb _); [split; reflexivity|].
    rewrite Hremove.
    destruct (MemStorage.removeTrackFromPlaylist s playlistId trackId)
      as [s' []]; split; reflexivity.
Qed.

(** ** C8: the store reports absence *)

Lemma filter_all {A} (p : A -> bool) l :
  (forall x, In x l -> p x = true) -> filter p l = l.
Proof.
  induction l as [|a l IH]; simpl; intros H; [reflexivity|].
  rewrite (H a) by now left. f_equal. apply IH. intros x Hx. apply H.
  now right.
Qed.

Lemma remove_absent {V} k (m : JSMap.t V) :
  JSMap.get k m = None -> JSMap.remove k m = m /\ JSMap.has k m = false.
Proof.
  intros Hget. unfold JSMap.has. rewrite Hget. split; [|reflexivity].
  apply filter_all. intros [k' v] Hin. simpl.
  destruct (Z.eqb_spec k k') as [->|_]; [|reflexivity].
  exfalso. apply get_None_keys in Hget. apply Hget. now apply In_keys in Hin.
Qed.

(** On a consistent store the cascade for an id that no link refers to
    removes nothing. *)
Lemma deleteRows_none doomed s :
  Consistent s ->
  (forall pt, In pt (JSMap.values (MemStorage.playlistTracks s)) ->
              doomed pt = false) ->
  MemStorage.deleteRows doomed (MemStorage.playlistTracks s)
  = MemStorage.playlistTracks s.
Proof.
  intros H Hnone. rewrite deleteRows_filter by apply H.
  apply filter_all. intros [k pt] Hin. simpl.
  rewrite Hnone; [reflexivity|]. apply In_values. now exists k.
Qed.

Lemma deletePlaylist_absent s id :
  Consistent s -> MemStorage.getPlaylistById s id = None ->
  MemStorage.deletePlaylist s id = (s, false).
Proof.
  intros H Hget. unfold MemStorage.deletePlaylist, JSMap.delete.
  destruct (remove_absent _ _ Hget) as [-> ->].
  rewrite deleteRows_none; [now destruct s|exact H|].
  intros pt Hin. apply (links_refer s H) in Hin as [Hpl _].
  apply Z.eqb_neq. intros E. apply Hpl. now rewrite E.
Qed.

Lemma deleteTrack_absent s id :
  Consistent s -> MemStorage.getTrackById s id = None ->
  MemStorage.deleteTrack s id = (s, false).
Proof.
  intros H Hget. unfold MemStorage.deleteTrack, JSMap.delete.
  destruct (remove_absent _ _ Hget) as [-> ->].
  rewrite deleteRows_none; [now destruct s|exact H|].
  intros pt Hin. apply (links_refer s H) in Hin as [_ Htr].
  apply Z.eqb_neq. intros E. apply Htr. now rewrite E.
Qed.

Lemma getPlaylistTracks_absent s id :
  Consistent s -> MemStorage.getPlaylistById s id = None ->
  MemStorage.getPlaylistTracks s id = Ok [].
Proof.
  intros H Hget. unfold MemStorage.getPlaylistTracks.
  rewrite filter_nil; [reflexivity|].
  intros pt Hin. apply (links_refer s H) in Hin as [Hpl _].
  apply Z.eqb_neq. intros E. apply Hpl. now rewrite E.
Qed.

(** C8. On a store built by any sequence of calls, no read, update or
    delete call throws, whatever its arguments; the listing of any playlist
    id returns, so its throw for a link to a missing track is never taken;
    and an id that is not stored is reported as absence, with the store left
    as it was: the listing of a missing playlist is empty, the lookups and
    updates return nothing, the deletions return false. *)
Theorem store_reports_absence
  (cs : list AnyCall) (A : Type) (c : Call.t A) (id : Z) :
  let s := run cs MemStorage.fresh in
  match Call.kind c with
  | Call.Create => True
  | _ => exists v, snd (invoke c s) = Ok v
  end
  /\ (exists entries, MemStorage.getPlaylistTracks s id = Ok entries)
  /\ match MemStorage.getPlaylistById s id with
     | Some _ => True
     | None =>
         MemStorage.getPlaylistTracks s id = Ok []
         /\ MemStorage.deletePlaylist s id = (s, false)
         /\ forall updates, MemStorage.updatePlaylist s id updates = (s, None)
     end
  /\ match MemStorage.getTrackById s id with
     | Some _ => True
     | None =>
         MemStorage.deleteTrack s id = (s, false)
         /\ forall updates, MemStorage.updateTrack s id updates = (s, None)
     end.
Proof.
  intros s.
  assert (H : Consistent s) by apply consistent_run, consistent_fresh.
  assert (Hlist : forall playlistId,
             exists entries,
               MemStorage.getPlaylistTracks s playlistId = Ok entries).
  { intros playlistId.
    destruct (getPlaylistTracks_ok s playlistId H) as (unsorted & E & _).
    eauto. }
  split; [|split; [apply Hlist|split]].
  - destruct c; simpl; try exact I; try (eexists; reflexivity).
    apply Hlist.
  - destruct (MemStorage.getPlaylistById s id) eqn:Hget; [exact I|].
    split; [now apply getPlaylistTracks_absent|].
    split; [now apply deletePlaylist_absent|].
    intros updates. unfold MemStorage.updatePlaylist.
    unfold MemStorage.getPlaylistById in Hget. now rewrite Hget.
  - destruct (MemStorage.getTrackById s id) eqn:Hget; [exact I|].
    split; [now apply deleteTrack_absent|].
    intros updates. unfold MemStorage.updateTrack.
    unfold MemStorage.getTrackById in Hget. now rewrite Hget.
Qed.

(** ** C9: usernames *)

(** C9. The store does not keep usernames distinct.  Two calls of
    [createUser] with one username, on the constructor's store, leave two
    users, under ids 1 and 2, with that username; and on the default store
    with a second user "other", [PATCH /users/me] with the username "other"
    answers 200 and leaves two users called "other". *)
Theorem createUser_duplicate_username :
  (let s := run sameNameTwice MemStorage.fresh in
   map (fun u => (User.id u, User.username u))
       (JSMap.values (MemStorage.users s))
   = [(1, "user"); (2, "user")]
   /\ ~ usernamesUnique s)
  /\
  (let s := fst (MemStorage.createUser storage otherUser) in
   let after := Routes.registerRoutes (PatchUsersMe (Valid renameToOther)) s in
   usernamesUnique s
   /\ status (snd after) = 200
   /\ map (fun u => (User.id u, User.username u))
          (JSMap.values (MemStorage.users (fst after)))
      = [(1, "other"); (2, "other")]
   /\ ~ usernamesUnique (fst after)).
Proof.
  split; cbv zeta.
  - split; [reflexivity|]. unfold usernamesUnique. vm_compute.
    intros H. inversion H as [|? ? Hin _]. apply Hin. now left.
  - split; [|split; [reflexivity|split; [reflexivity|]]].
    + unfold usernamesUnique. vm_compute. constructor.
      * intros [E|[]]. discriminate.
      * constructor; [intros []|constructor].
    + unfold usernamesUnique. vm_compute.
      intros H. inversion H as [|? ? Hin _]. apply Hin. now left.
Qed.

(** ** C10: tracks of a category *)

Lemma categoryId_is_spec categoryId track :
  MemStorage.categoryId_is categoryId track = true
  <-> Track.categoryId track = Some categoryId.
Proof.
  unfold MemStorage.categoryId_is. destruct (Track.categoryId track) as [c|].
  - rewrite Z.eqb_eq. split; [now intros ->|now intros [= ->]].
  - split; discriminate.
Qed.

(** C10. On any store, [getTracksByCategory] returns the stored tracks whose
    [categoryId] is the argument, whoever owns them.  An accepted upload
    stores the track under the caller and the category of the form, and
    its outcome is the same whatever the table of categories holds.
    [GET /tracks?categoryId=c] by the owner of category [c] answers with
    every stored track of that category.  So on [storage], after an upload
    by user 2 into category 1 of user 1, the session user's
    [GET /tracks?categoryId=1] answers with the track of user 2.  (The
    handlers read the caller from [req.user.id]; user 2 is a caller that
    another session middleware would supply.) *)
Theorem getTracksByCategory_ignores_owner (s : MemStorage.t) (categoryId : Z) :
  (forall track,
     In track (MemStorage.getTracksByCategory s categoryId)
     <-> In track (JSMap.values (MemStorage.tracks s))
         /\ Track.categoryId track = Some categoryId)
  /\ (forall user path form now,
        (forall categories,
           Routes.post_tracks_upload user (Some path) (Valid form) now
             (setCategories categories s)
           = (setCategories categories
                (fst (Routes.post_tracks_upload user (Some path) (Valid form)
                        now s)),
              snd (Routes.post_tracks_upload user (Some path) (Valid form)
                     now s)))
        /\ exists track,
             snd (Routes.post_tracks_upload user (Some path) (Valid form) now s)
             = Routes.json 201 (OfTrack track)
             /\ Track.userId track = user
             /\ Track.categoryId track = UploadForm.categoryId form
             /\ MemStorage.getTrackById
                  (fst (Routes.post_tracks_upload user (Some path) (Valid form)
                          now s))
                  (Track.id track)
                = Some track)
  /\ (forall category track,
        categoryId <> 0 ->
        MemStorage.getCategoryById s categoryId = Some category ->
        In track (JSMap.values (MemStorage.tracks s)) ->
        Track.categoryId track = Some categoryId ->
        exists tracks,
          Routes.get_tracks (Category.userId category) (Some categoryId) s
          = (s, Routes.json 200 (OfTracks tracks))
          /\ In track tracks)
  /\ (let s2 := fst (Routes.handle 2 foreignUpload storage) in
      Routes.registerRoutes (GetTracks (Some 1)) s2
      = (s2, Routes.json 200
               (OfTracks
                  [Track.mk 1 "memo" 2 (Some 1) 42 "uploads/2-1.webm" 3000]))).
Proof.
  assert (Hin : forall track,
             In track (MemStorage.getTracksByCategory s categoryId)
             <-> In track (JSMap.values (MemStorage.tracks s))
                 /\ Track.categoryId track = Some categoryId).
  { intros track. unfold MemStorage.getTracksByCategory.
    now rewrite filter_In, categoryId_is_spec. }
  split; [exact Hin|]. split; [|split].
  - intros user path form now. split; [reflexivity|].
    eexists. simpl. split; [reflexivity|]. split; [reflexivity|].
    split; [reflexivity|]. unfold MemStorage.getTrackById. simpl.
    apply get_set_same.
  - intros category track Hne Hget Htrack Hcat.
    exists (MemStorage.getTracksByCategory s categoryId).
    unfold Routes.get_tracks. rewrite Hget, Z.eqb_refl.
    destruct (Z.eqb_spec categoryId 0); [contradiction|]. simpl.
    split; [reflexivity|]. now apply Hin.
  - reflexivity.
Qed.

Lemma getTracksByCategory_ignores_owner_witness :
  let s2 := fst (Routes.handle 2 foreignUpload storage) in
  exists tracks,
    Routes.get_tracks 1 (Some 1) s2
    = (s2, Routes.json 200 (OfTracks tracks))
    /\ In (Track.mk 1 "memo" 2 (Some 1) 42 "uploads/2-1.webm" 3000) tracks.
Proof.
  apply (proj1 (proj2 (proj2
           (getTracksByCategory_ignores_owner
              (fst (Routes.handle 2 foreignUpload storage)) 1)))
           (Category.mk 1 "Interviews" "ri-mic-fill" "#1DB954" 1)
           (Track.mk 1 "memo" 2 (Some 1) 42 "uploads/2-1.webm" 3000)).
  - discriminate.
  - reflexivity.
  - left. reflexivity.
  - reflexivity.
Defined.

(** * Further properties of the store and of the handlers *)

(** ** Keys stay below the counters *)

Lemma In_keys_set {V} k (v : V) m k' :
  In k' (JSMap.keys (JSMap.set k v m)) -> k' = k \/ In k' (JSMap.keys m).
Proof.
  unfold JSMap.keys. rewrite !in_map_iff. intros ([k0 v0] & E & Hin).
  simpl in E. subst k0. apply In_set in Hin as [E|Hin].
  - left. now inversion E.
  - right. now exists (k', v0).
Qed.

Lemma below_set_new {V} bound k (v : V) m :
  below bound m -> k = bound -> below (bound + 1) (JSMap.set k v m).
Proof.
  intros Hm -> k' Hin. apply In_keys_set in Hin as [->|Hin]; [lia|].
  apply Hm in Hin. lia.
Qed.

Lemma below_set_stored {V} bound k (v v0 : V) m :
  below bound m -> JSMap.get k m = Some v0 -> below bound (JSMap.set k v m).
Proof.
  intros Hm Hget k' Hin. apply In_keys_set in Hin as [->|Hin]; [|auto].
  apply Hm. apply get_In in Hget. now apply In_keys in Hget.
Qed.

Lemma keyed_get {V} (id : V -> Z) k v m :
  keyed id m -> JSMap.get k m = Some v -> id v = k.
Proof. intros Hm Hget. apply Hm. now apply get_In. Qed.

Lemma nodup_keys_set {V} k (v : V) m :
  NoDup (JSMap.keys m) -> NoDup (JSMap.keys (JSMap.set k v m)).
Proof.
  intros Hnd. destruct (JSMap.get k m) as [v0|] eqn:Hget.
  - now rewrite (keys_set_present k v v0).
  - rewrite (set_absent _ _ _ Hget). unfold JSMap.keys. rewrite map_app.
    apply NoDup_snoc; [exact Hnd|]. now apply get_None_keys.
Qed.

Lemma tidy_fresh : Tidy MemStorage.fresh.
Proof.
  constructor; simpl; try (intros ? ? []); try (intros ? []); constructor.
Qed.

Ltac tidy_field :=
  first
    [ assumption
    | apply keyed_set;
      [assumption
      |simpl; first [reflexivity|eapply keyed_get; eassumption]]
    | apply below_set_new; [assumption|reflexivity]
    | eapply below_set_stored; eassumption
    | apply keyed_filter; assumption
    | apply below_filter; assumption
    | apply nodup_keys_set; assumption
    | apply NoDup_map_filter; assumption ].

Lemma tidy_step s c : Tidy s -> Tidy (step s c).
Proof.
  intros H. destruct c as [A c]. unfold step. simpl.
  destruct H as [Huk Hub Hck Hcb Hpk Hpb Htb Hun Hcn Hpn Htn].
  destruct c; simpl; try (constructor; assumption);
    try (constructor; simpl; tidy_field).
  - unfold MemStorage.updateUser.
    destruct (JSMap.get id (MemStorage.users s)) eqn:Hget;
      constructor; simpl; tidy_field.
  - unfold MemStorage.updateCategory.
    destruct (JSMap.get id (MemStorage.categories s)) eqn:Hget;
      constructor; simpl; tidy_field.
  - unfold MemStorage.updatePlaylist.
    destruct (JSMap.get id (MemStorage.playlists s)) eqn:Hget;
      constructor; simpl; tidy_field.
  - unfold MemStorage.updateTrack.
    destruct (JSMap.get id (MemStorage.tracks s)) eqn:Hget;
      constructor; simpl; tidy_field.
  - unfold MemStorage.addTrackToPlaylist.
    destruct (JSMap.get _ (MemStorage.playlists s)); [|now constructor].
    destruct (JSMap.get _ (MemStorage.tracks s)); [|now constructor].
    destruct (find_first _ _); now constructor.
  - unfold MemStorage.removeTrackFromPlaylist.
    destruct (find_first _ _); now constructor.
  - unfold MemStorage.updateTrackPosition.
    destruct (find_first _ _); now constructor.
Qed.

Lemma tidy_run cs s : Tidy s -> Tidy (run cs s).
Proof.
  revert s. induction cs as [|c cs IH]; intros s H; simpl; [exact H|].
  apply IH. now apply tidy_step.
Qed.

Lemma reachable_tidy s : reachable s -> Tidy s.
Proof. intros [cs ->]. apply tidy_run, tidy_fresh. Qed.

(** ** Creating a row and finding it again *)

Lemma below_get_none {V} bound (m : JSMap.t V) :
  below bound m -> JSMap.get bound m = None.
Proof.
  intros Hm. apply get_None_keys. intros Hin. apply Hm in Hin. lia.
Qed.

Lemma set_new_values {V} bound (v : V) m :
  below bound m ->
  JSMap.values (JSMap.set bound v m) = (JSMap.values m ++ [v])%list.
Proof.
  intros Hm. rewrite (set_absent _ _ _ (below_get_none _ _ Hm)).
  unfold JSMap.values. now rewrite map_app.
Qed.

Lemma find_snoc {A} (p : A -> bool) l x :
  find p (l ++ [x])
  = match find p l with
    | Some y => Some y
    | None => if p x then Some x else None
    end.
Proof.
  induction l as [|a l IH]; simpl; [reflexivity|]. now destruct (p a).
Qed.

(** X1. On a store built by any sequence of calls, [createTrack] stores the
    track under an id that held no track, stamped with the clock's reading;
    afterwards the id finds the track, every other id finds what it found
    before, and each listing by owner or by category gains the track at its
    end when the track belongs to it and is unchanged otherwise. *)
Theorem createTrack_then_lookup
  (cs : list AnyCall) (insertTrack : InsertTrack.t) (now : Z) :
  let s := run cs MemStorage.fresh in
  let s' := fst (MemStorage.createTrack s insertTrack now) in
  let track := snd (MemStorage.createTrack s insertTrack now) in
  MemStorage.getTrackById s (Track.id track) = None
  /\ Track.createdAt track = now
  /\ MemStorage.getTrackById s' (Track.id track) = Some track
  /\ (forall id, id <> Track.id track ->
        MemStorage.getTrackById s' id = MemStorage.getTrackById s id)
  /\ (forall userId,
        MemStorage.getTracks s' userId
        = (MemStorage.getTracks s userId
           ++ (if InsertTrack.userId insertTrack =? userId then [track]
               else []))%list)
  /\ (forall categoryId,
        MemStorage.getTracksByCategory s' categoryId
        = (MemStorage.getTracksByCategory s categoryId
           ++ (if MemStorage.categoryId_is categoryId track then [track]
               else []))%list).
Proof.
  intros s s' track.
  assert (H : Tidy s) by apply tidy_run, tidy_fresh.
  pose proof (tidy_tracks_below s H) as Hb.
  unfold MemStorage.getTrackById, MemStorage.getTracks,
    MemStorage.getTracksByCategory. subst s' track. simpl.
  rewrite (set_new_values _ _ _ Hb), !get_set_same.
  split; [now apply below_get_none|]. split; [reflexivity|].
  split; [reflexivity|]. split; [|split].
  - intros id Hne. now apply get_set_other.
  - intros userId. now rewrite filter_app.
  - intros categoryId. now rewrite filter_app.
Qed.

(** X2. On a store built by any sequence of calls, [createCategory] and
    [createPlaylist] store the row under an id that held none; afterwards the
    id finds the row, every other id finds what it found before, and the
    listing of the row's owner gains the row at its end while the listing of
    any other user is unchanged. *)
Theorem createCategory_createPlaylist_then_lookup
  (cs : list AnyCall) (insertCategory : InsertCategory.t)
  (insertPlaylist : InsertPlaylist.t) :
  let s := run cs MemStorage.fresh in
  (let s' := fst (MemStorage.createCategory s insertCategory) in
   let category := snd (MemStorage.createCategory s insertCategory) in
   MemStorage.getCategoryById s (Category.id category) = None
   /\ MemStorage.getCategoryById s' (Category.id category) = Some category
   /\ (forall id, id <> Category.id category ->
         MemStorage.getCategoryById s' id = MemStorage.getCategoryById s id)
   /\ (forall userId,
         MemStorage.getCategories s' userId
         = (MemStorage.getCategories s userId
            ++ (if InsertCategory.userId insertCategory =? userId
                then [category] else []))%list))
  /\
  (let s' := fst (MemStorage.createPlaylist s insertPlaylist) in
   let playlist := snd (MemStorage.createPlaylist s insertPlaylist) in
   MemStorage.getPlaylistById s (Playlist.id playlist) = None
   /\ MemStorage.getPlaylistById s' (Playlist.id playlist) = Some playlist
   /\ (forall id, id <> Playlist.id playlist ->
         MemStorage.getPlaylistById s' id = MemStorage.getPlaylistById s id)
   /\ (forall userId,
         MemStorage.getPlaylists s' userId
         = (MemStorage.getPlaylists s userId
            ++ (if InsertPlaylist.userId insertPlaylist =? userId
                then [playlist] else []))%list)
   /\ MemStorage.getPlaylistTracks s' (Playlist.id playlist) = Ok []).
Proof.
  intros s.
  assert (H : Tidy s) by apply tidy_run, tidy_fresh.
  assert (Hc : Consistent s) by apply consistent_run, consistent_fresh.
  pose proof (tidy_categories_below s H) as Hcb.
  pose proof (tidy_playlists_below s H) as Hpb.
  unfold MemStorage.getCategoryById, MemStorage.getCategories,
    MemStorage.getPlaylistById, MemStorage.getPlaylists. simpl.
  rewrite (set_new_values _ _ _ Hcb), (set_new_values _ _ _ Hpb),
    !get_set_same.
  split; (split; [now apply below_get_none|]); (split; [reflexivity|]);
    (split; [intros id Hne; now apply get_set_other|]).
  - intros userId. now rewrite filter_app.
  - split; [intros userId; now rewrite filter_app|].
    unfold MemStorage.getPlaylistTracks. simpl. rewrite filter_nil;
      [reflexivity|].
    intros pt Hin. apply (links_refer s Hc) in Hin as [Hpl _].
    apply Z.eqb_neq. intros E. apply Hpl. rewrite E.
    now apply below_get_none.
Qed.

Lemma getUserByUsername_found s username user :
  MemStorage.getUserByUsername s username = Some user ->
  In user (JSMap.values (MemStorage.users s))
  /\ User.username user = username.
Proof.
  intros Hfind. apply find_some in Hfind as [Hin Hname].
  split; [exact Hin|]. now apply String.eqb_eq.
Qed.

(** X3. On a store built by any sequence of calls, [createUser] stores the
    user under an id that held none, where the id then finds it, and leaves
    what every other id finds.  [getUserByUsername] afterwards still returns
    the user it returned before for a name, and returns the new user only
    for the new user's name when no stored user had that name; the user it
    returns is stored under its id and bears the name, and when it returns
    nothing no stored user bears the name. *)
Theorem createUser_then_lookup
  (cs : list AnyCall) (insertUser : InsertUser.t) (username : string) :
  let s := run cs MemStorage.fresh in
  let s' := fst (MemStorage.createUser s insertUser) in
  let user := snd (MemStorage.createUser s insertUser) in
  MemStorage.getUser s (User.id user) = None
  /\ MemStorage.getUser s' (User.id user) = Some user
  /\ (forall id, id <> User.id user ->
        MemStorage.getUser s' id = MemStorage.getUser s id)
  /\ MemStorage.getUserByUsername s' username
     = match MemStorage.getUserByUsername s username with
       | Some old => Some old
       | None =>
           if String.eqb (InsertUser.username insertUser) username
           then Some user else None
       end
  /\ match MemStorage.getUserByUsername s' username with
     | Some found =>
         MemStorage.getUser s' (User.id found) = Some found
         /\ User.username found = username
     | None =>
         forall id other, MemStorage.getUser s' id = Some other ->
                          User.username other <> username
     end.
Proof.
  intros s s' user.
  assert (H : Tidy s) by apply tidy_run, tidy_fresh.
  assert (H' : Tidy s')
    by apply (tidy_step s (call (Call.createUser insertUser)) H).
  pose proof (tidy_users_below s H) as Hb.
  split; [now apply below_get_none|]. split; [apply get_set_same|].
  split; [intros id Hne; now apply get_set_other|]. split.
  - unfold MemStorage.getUserByUsername, find_first. subst s'. simpl.
    rewrite (set_new_values _ _ _ Hb), find_snoc. reflexivity.
  - destruct (MemStorage.getUserByUsername s' username) as [found|] eqn:Hfind.
    + apply getUserByUsername_found in Hfind as [Hin Hname].
      split; [|exact Hname]. apply In_values in Hin as (k & Hin).
      rewrite (tidy_users_keyed s' H' _ _ Hin).
      now apply In_get; [apply H'|].
    + intros id other Hget Hname.
      assert (Hin : In other (JSMap.values (MemStorage.users s')))
        by (apply In_values; exists id; now apply get_In).
      pose proof (find_none _ _ Hfind other Hin) as Hneq. cbv beta in Hneq.
      apply String.eqb_neq in Hneq. contradiction.
Qed.

(** ** The sort of a listing *)

Lemma sort_insert_In {A} (cmp : A -> A -> Z) x y l :
  In y (sort_insert cmp x l) <-> y = x \/ In y l.
Proof.
  split; intros H.
  - apply (Permutation_in _ (sort_insert_perm cmp x l)) in H.
    destruct H; [left; congruence|now right].
  - apply (Permutation_in _ (Permutation_sym (sort_insert_perm cmp x l))).
    destruct H; [left; congruence|now right].
Qed.

Lemma sort_insert_sorted x l :
  StronglySorted notAfter l ->
  StronglySorted notAfter (sort_insert byPosition x l).
Proof.
  induction 1 as [|y l Hl IH Hy]; simpl; [repeat constructor|].
  unfold byPosition at 1. destruct (Z.leb_spec (TrackAt.position x
                                                - TrackAt.position y) 0).
  - constructor; [now constructor|]. constructor; [unfold notAfter; lia|].
    eapply Forall_impl; [|exact Hy]. unfold notAfter. intros. lia.
  - constructor; [exact IH|]. apply Forall_forall. intros z Hz.
    apply sort_insert_In in Hz as [->|Hz]; [unfold notAfter; lia|].
    rewrite Forall_forall in Hy. now apply Hy.
Qed.

Lemma sort_sorted l : StronglySorted notAfter (sort byPosition l).
Proof.
  induction l as [|x l IH]; simpl; [constructor|].
  now apply sort_insert_sorted.
Qed.

(** Entries at one position keep their order: the sort is stable. *)
Lemma sort_insert_stable p x l :
  filter (fun e => TrackAt.position e =? p) (sort_insert byPosition x l)
  = filter (fun e => TrackAt.position e =? p) (x :: l).
Proof.
  induction l as [|y l IH]; simpl; [reflexivity|].
  unfold byPosition at 1. destruct (Z.leb_spec (TrackAt.position x
                                                - TrackAt.position y) 0);
    [reflexivity|].
  simpl in *. rewrite IH.
  destruct (Z.eqb_spec (TrackAt.position x) p);
    destruct (Z.eqb_spec (TrackAt.position y) p); try reflexivity. lia.
Qed.

Lemma sort_stable p l :
  filter (fun e => TrackAt.position e =? p) (sort byPosition l)
  = filter (fun e => TrackAt.position e =? p) l.
Proof.
  induction l as [|x l IH]; simpl; [reflexivity|].
  rewrite sort_insert_stable. simpl. now rewrite IH.
Qed.

Lemma sort_insert_first x l :
  (forall z, In z l -> TrackAt.position x <= TrackAt.position z) ->
  sort_insert byPosition x l = x :: l.
Proof.
  destruct l as [|z l]; simpl; [reflexivity|]. intros H.
  unfold byPosition. specialize (H z (or_introl eq_refl)).
  destruct (Z.leb_spec (TrackAt.position x - TrackAt.position z) 0);
    [reflexivity|lia].
Qed.

(** Leaving entries out commutes with the sort. *)
Lemma sort_insert_filter (q : TrackAt.t -> bool) x l :
  StronglySorted notAfter l ->
  filter q (sort_insert byPosition x l)
  = if q x then sort_insert byPosition x (filter q l) else filter q l.
Proof.
  induction 1 as [|y l Hl IH Hy]; [simpl; now destruct (q x)|].
  cbn [sort_insert].
  destruct (Z.leb_spec (byPosition x y) 0) as [Hle|Hgt];
    unfold byPosition in Hle || unfold byPosition in Hgt.
  - cbn [filter]. destruct (q x); [|reflexivity].
    symmetry. apply (sort_insert_first x (filter q (y :: l))).
    intros z Hz. apply filter_In in Hz as [[->|Hz] _]; [lia|].
    rewrite Forall_forall in Hy. specialize (Hy z Hz).
    unfold notAfter in Hy. lia.
  - cbn [filter]. rewrite IH. destruct (q y), (q x); simpl; try reflexivity.
    destruct (Z.leb_spec (byPosition x y) 0) as [H|H]; [|reflexivity].
    unfold byPosition in H. lia.
Qed.

Lemma sort_filter (q : TrackAt.t -> bool) l :
  sort byPosition (filter q l) = filter q (sort byPosition l).
Proof.
  induction l as [|x l IH]; simpl; [reflexivity|].
  rewrite sort_insert_filter by apply sort_sorted.
  destruct (q x); simpl; now rewrite IH.
Qed.

(** ** The listing of a playlist *)

Lemma getPlaylistTracks_unfold s playlistId :
  MemStorage.getPlaylistTracks s playlistId
  = bind (map_throw (MemStorage.resolveTrack s) (linksOf playlistId s))
         (fun unsorted => Ok (sort byPosition unsorted)).
Proof. reflexivity. Qed.

Lemma resolveTrack_entry s pt e :
  Consistent s -> MemStorage.resolveTrack s pt = Ok e -> entryOf s pt e.
Proof.
  intros H. unfold MemStorage.resolveTrack, entryOf.
  destruct (JSMap.get _ (MemStorage.tracks s)) as [track|] eqn:Hget;
    [|discriminate].
  intros [= <-]. simpl. repeat split.
  apply (tracks_keyed s H). now apply get_In.
Qed.

Lemma map_throw_filter {A B} (f : A -> result B) p q xs ys :
  (forall x y, In x xs -> f x = Ok y -> p x = q y) ->
  map_throw f xs = Ok ys ->
  map_throw f (filter p xs) = Ok (filter q ys).
Proof.
  revert ys. induction xs as [|x xs IH]; simpl; intros ys Hpq.
  - now intros [= <-].
  - destruct (f x) as [y|] eqn:Hy; simpl; [|discriminate].
    destruct (map_throw f xs) as [ys'|]; simpl; [|discriminate].
    intros [= <-]. simpl. rewrite <- (Hpq x y (or_introl eq_refl) Hy).
    assert (IH' : map_throw f (filter p xs) = Ok (filter q ys'))
      by (apply IH; [intros x' y' Hx'; apply Hpq; now right|reflexivity]).
    destruct (p x); simpl; rewrite ?Hy, IH'; reflexivity.
Qed.

Lemma map_throw_ext {A B} (f g : A -> result B) xs :
  (forall x, In x xs -> f x = g x) -> map_throw f xs = map_throw g xs.
Proof.
  induction xs as [|x xs IH]; simpl; intros H; [reflexivity|].
  rewrite (H x) by now left. rewrite IH; [reflexivity|].
  intros y Hy. apply H. now right.
Qed.

Lemma map_throw_Forall2 {A B} (f : A -> result B) xs ys :
  map_throw f xs = Ok ys -> Forall2 (fun x y => f x = Ok y) xs ys.
Proof.
  revert ys. induction xs as [|x xs IH]; simpl; intros ys.
  - intros [= <-]. constructor.
  - destruct (f x) as [y|] eqn:Hy; simpl; [|discriminate].
    destruct (map_throw f xs) as [ys'|]; simpl; [|discriminate].
    intros [= <-]. constructor; auto.
Qed.

Lemma NoDup_trackIds s playlistId :
  Consistent s -> NoDup (map PlaylistTrack.trackId (linksOf playlistId s)).
Proof.
  intros H. pose proof (links_pairs s H) as Hp. unfold linksOf.
  induction (JSMap.values (MemStorage.playlistTracks s)) as [|pt l IH];
    simpl in *; [constructor|].
  apply NoDup_cons_iff in Hp as [Hpt Hl].
  destruct (Z.eqb_spec (PlaylistTrack.playlistId pt) playlistId) as [E|_];
    simpl; [|auto].
  constructor; [|auto]. intros Hin. apply Hpt.
  apply in_map_iff in Hin as (pt' & Et & Hin).
  apply filter_In in Hin as [Hin Hp']. apply Z.eqb_eq in Hp'.
  apply in_map_iff. exists pt'. split; [|exact Hin].
  unfold pairOf. congruence.
Qed.

Lemma entryOf_summary s rows entries :
  Forall2 (entryOf s) rows entries ->
  map (fun e => (trackIdOf e, TrackAt.position e)) entries
  = map (fun pt => (PlaylistTrack.trackId pt, PlaylistTrack.position pt)) rows.
Proof.
  induction 1 as [|pt e rows entries (_ & Hid & Hpos) _ IH]; simpl;
    [reflexivity|].
  unfold trackIdOf at 1. now rewrite Hid, Hpos, IH.
Qed.

(** X4. On a store built by any sequence of calls, the listing of any
    playlist id returns; it is sorted by position, not descending; it has
    one entry per link of the playlist, with the link's position and the
    stored track of the link's [trackId], and no track twice; and the
    entries at one position follow the order of their links in the table. *)
Theorem getPlaylistTracks_sorted_listing (cs : list AnyCall) (playlistId : Z) :
  let s := run cs MemStorage.fresh in
  exists entries,
    MemStorage.getPlaylistTracks s playlistId = Ok entries
    /\ StronglySorted notAfter entries
    /\ Permutation
         (map (fun e => (trackIdOf e, TrackAt.position e)) entries)
         (map (fun pt => (PlaylistTrack.trackId pt, PlaylistTrack.position pt))
              (linksOf playlistId s))
    /\ (forall e, In e entries ->
          MemStorage.getTrackById s (trackIdOf e) = Some (TrackAt.track e))
    /\ NoDup (map trackIdOf entries)
    /\ (forall p,
          map trackIdOf (filter (fun e => TrackAt.position e =? p) entries)
          = map PlaylistTrack.trackId
              (filter (fun pt => PlaylistTrack.position pt =? p)
                      (linksOf playlistId s))).
Proof.
  intros s.
  assert (H : Consistent s) by apply consistent_run, consistent_fresh.
  destruct (getPlaylistTracks_ok s playlistId H) as (unsorted & E & Hall).
  fold (linksOf playlistId s) in Hall. change (fun a b => _) with byPosition in E.
  exists (sort byPosition unsorted). split; [exact E|].
  split; [apply sort_sorted|].
  pose proof (sort_perm byPosition unsorted) as Hperm.
  pose proof (entryOf_summary _ _ _ Hall) as Hsum.
  split; [|split; [|split]].
  - rewrite <- Hsum. now apply Permutation_map.
  - intros e Hin. apply (Permutation_in _ Hperm) in Hin.
    clear -Hall Hin. induction Hall as [|pt e' rows entries Hpt _ IH];
      [destruct Hin|].
    destruct Hin as [->|Hin]; [|auto].
    destruct Hpt as (Hget & Hid & _). unfold MemStorage.getTrackById, trackIdOf.
    now rewrite Hid.
  - apply (Permutation_NoDup (l := map trackIdOf unsorted)).
    + apply Permutation_map. now symmetry.
    + replace (map trackIdOf unsorted)
        with (map PlaylistTrack.trackId (linksOf playlistId s)).
      * now apply NoDup_trackIds.
      * apply (f_equal (map fst)) in Hsum. now rewrite !map_map in Hsum.
  - intros p. rewrite sort_stable.
    apply (Forall2_filter _ (fun pt => PlaylistTrack.position pt =? p)
             (fun e => TrackAt.position e =? p)) in Hall.
    + apply entryOf_summary in Hall. apply (f_equal (map fst)) in Hall.
      now rewrite !map_map in Hall.
    + intros pt e (_ & _ & Hpos). now rewrite Hpos.
Qed.

(** ** Unlinking and repositioning *)

Lemma rowsFor_find s playlistId trackId :
  Consistent s ->
  match find_first (MemStorage.links playlistId trackId)
          (JSMap.values (MemStorage.playlistTracks s)) with
  | None => rowsFor playlistId trackId s = []
  | Some link =>
      rowsFor playlistId trackId s = [link]
      /\ In link (JSMap.values (MemStorage.playlistTracks s))
      /\ PlaylistTrack.playlistId link = playlistId
      /\ PlaylistTrack.trackId link = trackId
  end.
Proof.
  intros H. unfold find_first.
  destruct (find _ _) as [link|] eqn:Hfind.
  - apply find_some in Hfind as [Hin Hl].
    apply links_pairOf in Hl. injection Hl as Hp Ht. subst.
    split; [now apply rowsFor_unique|]. now repeat split.
  - now apply find_none_filter.
Qed.

(** Deleting the key of a stored link removes the rows of its pair, which
    is that one row. *)
Lemma remove_link s link :
  Consistent s ->
  In link (JSMap.values (MemStorage.playlistTracks s)) ->
  JSMap.values (JSMap.remove (PlaylistTrack.id link)
                  (MemStorage.playlistTracks s))
  = filter (fun pt => negb (MemStorage.links (PlaylistTrack.playlistId link)
                              (PlaylistTrack.trackId link) pt))
           (JSMap.values (MemStorage.playlistTracks s)).
Proof.
  intros H Hin. unfold JSMap.remove, JSMap.values.
  rewrite <- (map_filter_snd
                (fun pt => negb (MemStorage.links (PlaylistTrack.playlistId link)
                                   (PlaylistTrack.trackId link) pt))).
  f_equal. apply filter_ext_in. intros [k pt] Hk. simpl. f_equal.
  apply (In_values link) in Hin as (k' & Hin).
  pose proof (links_keyed s H _ _ Hin) as Ek'.
  pose proof (links_keyed s H _ _ Hk) as Ek.
  destruct (MemStorage.links _ _ pt) eqn:Hl.
  - apply links_pairOf in Hl.
    assert (pt = link) as ->.
    { apply (NoDup_map_eq pairOf _ _ _ (links_pairs s H));
        [apply In_values; now exists k|apply In_values; now exists k'|].
      exact Hl. }
    apply Z.eqb_eq. congruence.
  - apply Z.eqb_neq. intros E. rewrite Ek' in E. subst k'.
    apply (In_get _ _ _ (links_nodup s H)) in Hin.
    apply (In_get _ _ _ (links_nodup s H)) in Hk.
    assert (pt = link) by congruence. subst pt.
    unfold MemStorage.links in Hl. now rewrite !Z.eqb_refl in Hl.
Qed.

Lemma linksOf_filter s s' (p : PlaylistTrack.t -> bool) playlistId :
  JSMap.values (MemStorage.playlistTracks s')
  = filter p (JSMap.values (MemStorage.playlistTracks s)) ->
  linksOf playlistId s' = filter p (linksOf playlistId s).
Proof.
  intros E. unfold linksOf. rewrite E, !filter_filter.
  apply filter_ext. intros pt. apply andb_comm.
Qed.

(** The listing after some links are gone, when the tracks of the links
    that stay are as before. *)
Lemma getPlaylistTracks_filter s s' p q playlistId entries :
  Consistent s ->
  JSMap.values (MemStorage.playlistTracks s')
  = filter p (JSMap.values (MemStorage.playlistTracks s)) ->
  (forall pt, p pt = true ->
     JSMap.get (PlaylistTrack.trackId pt) (MemStorage.tracks s')
     = JSMap.get (PlaylistTrack.trackId pt) (MemStorage.tracks s)) ->
  (forall pt e, PlaylistTrack.playlistId pt = playlistId ->
                entryOf s pt e -> p pt = q e) ->
  MemStorage.getPlaylistTracks s playlistId = Ok entries ->
  MemStorage.getPlaylistTracks s' playlistId = Ok (filter q entries).
Proof.
  intros H Erows Etracks Hpq. rewrite !getPlaylistTracks_unfold.
  rewrite (linksOf_filter s s' p playlistId Erows).
  destruct (map_throw (MemStorage.resolveTrack s) (linksOf playlistId s))
    as [unsorted|] eqn:Emap; simpl; [|discriminate].
  intros [= <-].
  rewrite (map_throw_ext (MemStorage.resolveTrack s')
             (MemStorage.resolveTrack s)).
  - rewrite (map_throw_filter _ p q _ unsorted); [| |exact Emap].
    + simpl. now rewrite sort_filter.
    + intros pt e Hin He. apply filter_In in Hin as [_ Hp].
      apply Z.eqb_eq in Hp. apply Hpq; [exact Hp|].
      now apply resolveTrack_entry.
  - intros pt Hin. apply filter_In in Hin as [_ Hp].
    unfold MemStorage.resolveTrack. now rewrite Etracks.
Qed.

(** X5. On a store built by any sequence of calls,
    [removeTrackFromPlaylist(P, T)] returns false and leaves the store as it
    was when the pair is not linked.  When it is linked the call returns
    true; the rows of other pairs stay, in their order, and no other table or
    counter changes; the listing of [P] is the old listing without the entry
    of [T], and the listing of every other playlist is as before. *)
Theorem removeTrackFromPlaylist_effect (cs : list AnyCall) (P T : Z) :
  let s := run cs MemStorage.fresh in
  let s' := fst (MemStorage.removeTrackFromPlaylist s P T) in
  match rowsFor P T s with
  | [] => MemStorage.removeTrackFromPlaylist s P T = (s, false)
  | _ =>
      snd (MemStorage.removeTrackFromPlaylist s P T) = true
      /\ JSMap.values (MemStorage.playlistTracks s')
         = filter (fun pt => negb (MemStorage.links P T pt))
                  (JSMap.values (MemStorage.playlistTracks s))
      /\ setPlaylistTracks (MemStorage.playlistTracks s) s' = s
      /\ (exists entries,
            MemStorage.getPlaylistTracks s P = Ok entries
            /\ MemStorage.getPlaylistTracks s' P
               = Ok (filter (fun e => negb (trackIdOf e =? T)) entries))
      /\ (forall P', P' <> P ->
            MemStorage.getPlaylistTracks s' P'
            = MemStorage.getPlaylistTracks s P')
  end.
Proof.
  intros s s'.
  assert (H : Consistent s) by apply consistent_run, consistent_fresh.
  pose proof (rowsFor_find s P T H) as Hfind. subst s'.
  unfold MemStorage.removeTrackFromPlaylist.
  destruct (find_first _ _) as [link|]; [|now rewrite Hfind].
  destruct Hfind as (-> & Hin & <- & <-).
  assert (Hhas : JSMap.has (PlaylistTrack.id link)
                   (MemStorage.playlistTracks s) = true).
  { unfold JSMap.has. apply In_values in Hin as (k & Hin).
    rewrite (links_keyed s H _ _ Hin).
    now rewrite (In_get _ _ _ (links_nodup s H) Hin). }
  pose proof (remove_link s link H Hin) as Erows.
  simpl. split; [exact Hhas|]. split; [exact Erows|].
  split; [now destruct s|].
  split.
  - destruct (getPlaylistTracks_ok s (PlaylistTrack.playlistId link) H)
      as (unsorted & E & _).
    eexists. split; [exact E|].
    apply (getPlaylistTracks_filter s
             (setPlaylistTracks
                (JSMap.remove (PlaylistTrack.id link)
                   (MemStorage.playlistTracks s)) s) _ _ _ _ H Erows);
      [reflexivity| |exact E].
    intros pt e Hp (_ & Hid & _). unfold MemStorage.links, trackIdOf.
    now rewrite Hp, Hid, Z.eqb_refl.
  - intros P' Hne.
    destruct (getPlaylistTracks_ok s P' H) as (unsorted & E & _).
    rewrite E.
    assert (HH : MemStorage.getPlaylistTracks
                   (setPlaylistTracks
                      (JSMap.remove (PlaylistTrack.id link)
                         (MemStorage.playlistTracks s)) s) P'
                 = Ok (filter (fun _ => true)
                         (sort (fun a b => TrackAt.position a
                                           - TrackAt.position b) unsorted))).
    { apply (getPlaylistTracks_filter s
               (setPlaylistTracks
                  (JSMap.remove (PlaylistTrack.id link)
                     (MemStorage.playlistTracks s)) s) _ _ _ _ H Erows);
        [reflexivity| |exact E].
      intros pt e Hp _. unfold MemStorage.links. rewrite Hp.
      destruct (Z.eqb_spec P' (PlaylistTrack.playlistId link));
        [congruence|reflexivity]. }
    rewrite filter_all in HH by reflexivity. exact HH.
Qed.

Lemma assignFirst_values playlistId trackId f rows :
  NoDup (map pairOf (JSMap.values rows)) ->
  JSMap.values
    (MemStorage.assignFirst (MemStorage.links playlistId trackId) f rows)
  = map (fun pt => if MemStorage.links playlistId trackId pt then f pt
                   else pt)
        (JSMap.values rows).
Proof.
  induction rows as [|[k pt] rows IH]; simpl; intros Hnd; [reflexivity|].
  apply NoDup_cons_iff in Hnd as [Hpt Hrest].
  destruct (MemStorage.links playlistId trackId pt) eqn:Hl; simpl.
  - f_equal. symmetry. rewrite <- (map_id (map snd rows)) at 2.
    apply map_ext_in. intros pt' Hin.
    destruct (MemStorage.links playlistId trackId pt') eqn:Hl';
      [|reflexivity].
    exfalso. apply Hpt. apply links_pairOf in Hl, Hl'. rewrite Hl, <- Hl'.
    now apply in_map.
  - f_equal. now apply IH.
Qed.

Lemma filter_map_same {A} (p : A -> bool) (g : A -> A) l :
  (forall x, p (g x) = p x) ->
  (forall x, p x = true -> g x = x) ->
  filter p (map g l) = filter p l.
Proof.
  intros Hp Hg. induction l as [|x l IH]; simpl; [reflexivity|].
  rewrite Hp. destruct (p x) eqn:Hx; [|exact IH].
  now rewrite (Hg x Hx), IH.
Qed.

Lemma filter_map_moved {A} (p : A -> bool) (f : A -> A) l :
  (forall x, p (f x) = p x) ->
  filter p (map (fun x => if p x then f x else x) l) = map f (filter p l).
Proof.
  intros Hp. induction l as [|x l IH]; simpl; [reflexivity|].
  destruct (p x) eqn:Hx; simpl.
  - now rewrite Hp, Hx, IH.
  - now rewrite Hx, IH.
Qed.

(** X6. On a store built by any sequence of calls,
    [updateTrackPosition(P, T, n)] returns false and leaves the store as it
    was when the pair is not linked.  When it is linked the call returns
    true and the row of the pair has position [n], the same id, playlist and
    track; every other row is as before (none is renumbered, so positions
    may collide), the rows keep their keys and their order, no other table or
    counter changes, and the listing of every other playlist is as before. *)
Theorem updateTrackPosition_effect (cs : list AnyCall) (P T newPosition : Z) :
  let s := run cs MemStorage.fresh in
  let s' := fst (MemStorage.updateTrackPosition s P T newPosition) in
  match rowsFor P T s with
  | [] => MemStorage.updateTrackPosition s P T newPosition = (s, false)
  | _ =>
      snd (MemStorage.updateTrackPosition s P T newPosition) = true
      /\ JSMap.values (MemStorage.playlistTracks s')
         = map (fun pt => if MemStorage.links P T pt
                          then movedTo newPosition pt else pt)
               (JSMap.values (MemStorage.playlistTracks s))
      /\ JSMap.keys (MemStorage.playlistTracks s')
         = JSMap.keys (MemStorage.playlistTracks s)
      /\ rowsFor P T s' = map (movedTo newPosition) (rowsFor P T s)
      /\ setPlaylistTracks (MemStorage.playlistTracks s) s' = s
      /\ (forall P', P' <> P ->
            MemStorage.getPlaylistTracks s' P'
            = MemStorage.getPlaylistTracks s P')
  end.
Proof.
  intros s s'.
  assert (H : Consistent s) by apply consistent_run, consistent_fresh.
  pose proof (rowsFor_find s P T H) as Hfind. subst s'.
  unfold MemStorage.updateTrackPosition.
  destruct (find_first _ _) as [link|] eqn:Efind; [|now rewrite Hfind].
  destruct Hfind as (Erows & Hin & HP & HT). rewrite Erows.
  change (fun pt => PlaylistTrack.mk _ _ _ newPosition)
    with (movedTo newPosition).
  change (PlaylistTrack.mk (PlaylistTrack.id link) _ _ newPosition)
    with (movedTo newPosition link).
  cbn [fst snd].
  set (rows' := JSMap.set _ _ _).
  assert (Eset : rows' = MemStorage.assignFirst (MemStorage.links P T)
                           (movedTo newPosition)
                           (MemStorage.playlistTracks s)).
  { subst rows'. apply set_present.
    apply (assignFirst_get _ (movedTo newPosition) _ link);
      [apply H|apply H|reflexivity|exact Efind]. }
  assert (Evalues : JSMap.values rows'
                    = map (fun pt => if MemStorage.links P T pt
                                     then movedTo newPosition pt else pt)
                          (JSMap.values (MemStorage.playlistTracks s))).
  { rewrite Eset. apply assignFirst_values, H. }
  assert (Hpair : forall pt, MemStorage.links P T (movedTo newPosition pt)
                             = MemStorage.links P T pt) by reflexivity.
  split; [reflexivity|]. split; [exact Evalues|]. split; [|split; [|split]].
  - rewrite Eset. apply assignFirst_keys.
  - unfold rowsFor at 1. cbn [MemStorage.playlistTracks]. rewrite Evalues.
    rewrite (filter_map_moved _ _ _ Hpair). fold (rowsFor P T s).
    now rewrite Erows.
  - now destruct s.
  - intros P' Hne. rewrite !getPlaylistTracks_unfold.
    unfold linksOf at 1. cbn [MemStorage.playlistTracks]. rewrite Evalues.
    rewrite filter_map_same; [reflexivity| |].
    + intros pt. now destruct (MemStorage.links P T pt).
    + intros pt Hp. unfold MemStorage.links.
      apply Z.eqb_eq in Hp. rewrite Hp.
      destruct (Z.eqb_spec P' P); [contradiction|reflexivity].
Qed.

(** ** Deleting a category *)

Lemma has_stored {V} k (v : V) m :
  JSMap.get k m = Some v -> JSMap.has k m = true.
Proof. unfold JSMap.has. now intros ->. Qed.

(** X7. On any store, [DELETE /categories/:id] by the owner of the category
    answers 204 and removes the category and nothing else: every other
    category, and every track, those of the deleted category included, is
    stored as before.  The tracks are then still listed by owner and by the
    category id, but [GET /tracks?categoryId=id] answers 403 to everyone. *)
Theorem delete_category_keeps_tracks
  (s : MemStorage.t) (user id : Z) (category : Category.t) :
  let s' := fst (Routes.delete_category user id s) in
  MemStorage.getCategoryById s id = Some category ->
  Category.userId category = user ->
  snd (Routes.delete_category user id s) = Routes.json 204 NoBody
  /\ MemStorage.getCategoryById s' id = None
  /\ (forall id', id' <> id ->
        MemStorage.getCategoryById s' id' = MemStorage.getCategoryById s id')
  /\ setCategories (MemStorage.categories s) s' = s
  /\ MemStorage.getTracksByCategory s' id = MemStorage.getTracksByCategory s id
  /\ (forall caller,
        id <> 0 ->
        Routes.get_tracks caller (Some id) s'
        = (s', Routes.json 403
                 (Message "Not authorized to access this category"))).
Proof.
  intros s' Hget Howner. subst s'. unfold Routes.delete_category.
  rewrite Hget, Howner, Z.eqb_refl. unfold MemStorage.getCategoryById in *.
  unfold MemStorage.deleteCategory, JSMap.delete.
  rewrite (has_stored _ _ _ Hget). cbn [negb fst snd].
  split; [reflexivity|]. split; [apply get_remove_same|].
  split; [intros id' Hne; now apply get_remove_other|].
  split; [now destruct s|]. split; [reflexivity|].
  intros caller Hne. unfold Routes.get_tracks, MemStorage.getCategoryById.
  cbn [MemStorage.categories]. rewrite get_remove_same.
  now destruct (Z.eqb_spec id 0).
Qed.

Lemma delete_category_keeps_tracks_witness :
  let s := run sharedCalls MemStorage.fresh in
  let s' := fst (Routes.delete_category 1 1 s) in
  snd (Routes.delete_category 1 1 s) = Routes.json 204 NoBody
  /\ MemStorage.getCategoryById s' 1 = None
  /\ List.length (MemStorage.getTracksByCategory s' 1) = 2%nat.
Proof.
  destruct (delete_category_keeps_tracks (run sharedCalls MemStorage.fresh)
              1 1 (Category.mk 1 "Interviews" "ri-mic-fill" "#1DB954" 1)
              eq_refl eq_refl) as (Hs & Hg & _ & _ & Ht & _).
  split; [exact Hs|]. split; [exact Hg|]. cbv zeta. rewrite Ht. reflexivity.
Defined.

(** ** Authorization *)


(** ** The one unexpected failure *)





(** ** What a request leaves alone *)

Lemma ownChange_foreign {V} user (owner id : V -> Z) counter m m' k row :
  below counter m -> ownChange user owner id counter m m' ->
  JSMap.get k m = Some row -> owner row <> user ->
  JSMap.get k m' = Some row.
Proof.
  intros Hb Hch Hget Hrow. destruct Hch as [|v _|k0 old new Hold Ho _ _|k0 old Hold Ho].
  - exact Hget.
  - rewrite get_set_other; [exact Hget|]. intros ->.
    rewrite (below_get_none _ _ Hb) in Hget. discriminate.
  - rewrite get_set_other; [exact Hget|]. intros ->. congruence.
  - rewrite get_remove_other; [exact Hget|]. intros ->. congruence.
Qed.

Lemma ownChange_version {V} user (owner id : V -> Z) counter m m' k row row' :
  below counter m -> ownChange user owner id counter m m' ->
  JSMap.get k m = Some row -> JSMap.get k m' = Some row' ->
  owner row' = owner row /\ id row' = id row.
Proof.
  intros Hb Hch Hget Hget'.
  destruct Hch as [|v _|k0 old new Hold _ Ho Hi|k0 old Hold _].
  - split; congruence.
  - destruct (Z.eq_dec k counter) as [->|Hne].
    + rewrite (below_get_none _ _ Hb) in Hget. discriminate.
    + rewrite get_set_other in Hget' by exact Hne. split; congruence.
  - destruct (Z.eq_dec k k0) as [->|Hne].
    + rewrite get_set_same in Hget'. split; congruence.
    + rewrite get_set_other in Hget' by exact Hne. split; congruence.
  - destruct (Z.eq_dec k k0) as [->|Hne].
    + rewrite get_remove_same in Hget'. discriminate.
    + rewrite get_remove_other in Hget' by exact Hne. split; congruence.
Qed.

Lemma negb_eqb_false a b : negb (a =? b) = false -> a = b.
Proof. intros H. apply negb_false_iff in H. now apply Z.eqb_eq. Qed.

(** What each handler does to the users and to the three tables of owned
    rows. *)
Lemma handle_ownChange user req s :
  let s' := fst (Routes.handle user req s) in
  ownChange user Category.userId Category.id (MemStorage.categoryId s)
    (MemStorage.categories s) (MemStorage.categories s')
  /\ ownChange user Playlist.userId Playlist.id (MemStorage.playlistId s)
       (MemStorage.playlists s) (MemStorage.playlists s')
  /\ ownChange user Track.userId Track.id (MemStorage.trackId s)
       (MemStorage.tracks s) (MemStorage.tracks s')
  /\ usersChange user (MemStorage.users s) (MemStorage.users s').
Proof.
  assert (Hsame : ownChange user Category.userId Category.id
                    (MemStorage.categoryId s) (MemStorage.categories s)
                    (MemStorage.categories s)
                  /\ ownChange user Playlist.userId Playlist.id
                       (MemStorage.playlistId s) (MemStorage.playlists s)
                       (MemStorage.playlists s)
                  /\ ownChange user Track.userId Track.id
                       (MemStorage.trackId s) (MemStorage.tracks s)
                       (MemStorage.tracks s)
                  /\ usersChange user (MemStorage.users s)
                       (MemStorage.users s))
    by (repeat split; constructor).
  destruct req as [|patch| |form|id patch|id| |id|form|id patch|id|category
                  |file form now|id|id|playlistId trackId|playlistId trackId];
    unfold Routes.handle; cbv zeta.
  - unfold Routes.get_users_me. now destruct (MemStorage.getUser s user).
  - unfold Routes.patch_users_me. destruct patch as [data|errors];
      [|exact Hsame].
    unfold MemStorage.updateUser.
    destruct (JSMap.get user (MemStorage.users s)) as [old|] eqn:Hget;
      [|exact Hsame].
    simpl. repeat split; try constructor.
    now apply (patched _ _ old).
  - exact Hsame.
  - unfold Routes.post_categories. destruct form as [form|errors];
      [|exact Hsame].
    simpl. repeat split; constructor; reflexivity.
  - unfold Routes.patch_category, MemStorage.getCategoryById.
    destruct (JSMap.get id (MemStorage.categories s)) as [c|] eqn:Hget;
      [|exact Hsame].
    destruct (negb _) eqn:Ho; [exact Hsame|]. apply negb_eqb_false in Ho.
    destruct patch as [patch|errors]; [|exact Hsame].
    unfold MemStorage.updateCategory. rewrite Hget. simpl.
    repeat split; try constructor.
    now apply (new_version _ _ _ _ _ id c).
  - unfold Routes.delete_category, MemStorage.getCategoryById.
    destruct (JSMap.get id (MemStorage.categories s)) as [c|] eqn:Hget;
      [|exact Hsame].
    destruct (negb _) eqn:Ho; [exact Hsame|]. apply negb_eqb_false in Ho.
    unfold MemStorage.deleteCategory, JSMap.delete.
    rewrite (has_stored _ _ _ Hget). simpl.
    repeat split; try constructor. now apply (no_row _ _ _ _ _ id c).
  - exact Hsame.
  - unfold Routes.get_playlist.
    destruct (MemStorage.getPlaylistById s id); [|exact Hsame].
    destruct (negb _); [exact Hsame|].
    now destruct (MemStorage.getPlaylistTracks s id).
  - unfold Routes.post_playlists. destruct form as [form|errors];
      [|exact Hsame].
    simpl. repeat split; constructor; reflexivity.
  - unfold Routes.patch_playlist, MemStorage.getPlaylistById.
    destruct (JSMap.get id (MemStorage.playlists s)) as [c|] eqn:Hget;
      [|exact Hsame].
    destruct (negb _) eqn:Ho; [exact Hsame|]. apply negb_eqb_false in Ho.
    destruct patch as [patch|errors]; [|exact Hsame].
    unfold MemStorage.updatePlaylist. rewrite Hget. simpl.
    repeat split; try constructor.
    now apply (new_version _ _ _ _ _ id c).
  - unfold Routes.delete_playlist, MemStorage.getPlaylistById.
    destruct (JSMap.get id (MemStorage.playlists s)) as [c|] eqn:Hget;
      [|exact Hsame].
    destruct (negb _) eqn:Ho; [exact Hsame|]. apply negb_eqb_false in Ho.
    unfold MemStorage.deletePlaylist, JSMap.delete.
    rewrite (has_stored _ _ _ Hget). simpl.
    repeat split; try constructor. now apply (no_row _ _ _ _ _ id c).
  - unfold Routes.get_tracks. destruct category as [c|]; [|exact Hsame].
    destruct (negb _); [|exact Hsame].
    destruct (MemStorage.getCategoryById s c); [|exact Hsame].
    now destruct (negb _).
  - unfold Routes.post_tracks_upload. destruct file as [path|];
      [|exact Hsame].
    destruct form as [form|errors]; [|exact Hsame].
    simpl. repeat split; constructor; reflexivity.
  - unfold Routes.get_track_audio.
    destruct (MemStorage.getTrackById s id); [|exact Hsame].
    now destruct (negb _).
  - unfold Routes.delete_track, MemStorage.getTrackById.
    destruct (JSMap.get id (MemStorage.tracks s)) as [c|] eqn:Hget;
      [|exact Hsame].
    destruct (negb _) eqn:Ho; [exact Hsame|]. apply negb_eqb_false in Ho.
    unfold MemStorage.deleteTrack, JSMap.delete.
    rewrite (has_stored _ _ _ Hget). simpl.
    repeat split; try constructor. now apply (no_row _ _ _ _ _ id c).
  - unfold Routes.post_playlist_tracks, Routes.add.
    destruct (MemStorage.getPlaylistById s playlistId); [|exact Hsame].
    destruct (negb _); [exact Hsame|].
    destruct (MemStorage.getPlaylistTracks s playlistId); [|exact Hsame].
    destruct (Routes.insertPlaylistTrackSchema _ _ _) as [data|errors];
      [|exact Hsame].
    unfold MemStorage.addTrackToPlaylist.
    destruct (JSMap.get _ (MemStorage.playlists s)); [|exact Hsame].
    destruct (JSMap.get _ (MemStorage.tracks s)); [|exact Hsame].
    now destruct (find_first _ _).
  - unfold Routes.delete_playlist_track.
    destruct (MemStorage.getPlaylistById s playlistId); [|exact Hsame].
    destruct (negb _); [exact Hsame|].
    unfold MemStorage.removeTrackFromPlaylist.
    destruct (find_first _ _) as [link|]; [|exact Hsame].
    unfold JSMap.delete.
    now destruct (JSMap.has (PlaylistTrack.id link) _).
Qed.

Lemma usersChange_spec user m m' k u :
  usersChange user m m' -> JSMap.get k m = Some u ->
  (k <> user -> JSMap.get k m' = Some u)
  /\ exists u', JSMap.get k m' = Some u'
                /\ User.id u' = User.id u
                /\ User.password u' = User.password u.
Proof.
  intros [|old new Hold Hid Hpw] Hget.
  - split; [auto|]. now exists u.
  - split; [intros Hne; now rewrite get_set_other|].
    destruct (Z.eq_dec k user) as [->|Hne].
    + exists new. rewrite get_set_same. split; [reflexivity|].
      split; congruence.
    + exists u. now rewrite get_set_other.
Qed.

Lemma usersChange_absent user m m' k :
  usersChange user m m' -> JSMap.get k m = None -> JSMap.get k m' = None.
Proof.
  intros [|old new Hold _ _] Hget; [exact Hget|].
  rewrite get_set_other; [exact Hget|]. intros ->. congruence.
Qed.

(** X10. On a store built by any sequence of calls and for any request of
    any caller: a category, playlist or track that is stored for another
    user is stored unchanged afterwards; a row that is stored under an id
    before and after has the same owner and id; every other user's row is
    unchanged, and no request changes the id or the password of a user, or
    adds or removes a user. *)
Theorem requests_keep_foreign_rows
  (cs : list AnyCall) (user : Z) (req : Request) (id : Z) :
  let s := run cs MemStorage.fresh in
  let s' := fst (Routes.handle user req s) in
  match MemStorage.getCategoryById s id with
  | None => True
  | Some row =>
      (Category.userId row <> user ->
       MemStorage.getCategoryById s' id = Some row)
      /\ (forall row', MemStorage.getCategoryById s' id = Some row' ->
            Category.userId row' = Category.userId row
            /\ Category.id row' = Category.id row)
  end
  /\ match MemStorage.getPlaylistById s id with
     | None => True
     | Some row =>
         (Playlist.userId row <> user ->
          MemStorage.getPlaylistById s' id = Some row)
         /\ (forall row', MemStorage.getPlaylistById s' id = Some row' ->
               Playlist.userId row' = Playlist.userId row
               /\ Playlist.id row' = Playlist.id row)
     end
  /\ match MemStorage.getTrackById s id with
     | None => True
     | Some row =>
         (Track.userId row <> user -> MemStorage.getTrackById s' id = Some row)
         /\ (forall row', MemStorage.getTrackById s' id = Some row' ->
               Track.userId row' = Track.userId row
               /\ Track.id row' = Track.id row)
     end
  /\ match MemStorage.getUser s id with
     | None => MemStorage.getUser s' id = None
     | Some u =>
         (id <> user -> MemStorage.getUser s' id = Some u)
         /\ exists u', MemStorage.getUser s' id = Some u'
                       /\ User.id u' = User.id u
                       /\ User.password u' = User.password u
     end.
Proof.
  intros s s'.
  assert (H : Tidy s) by apply tidy_run, tidy_fresh.
  destruct (handle_ownChange user req s) as (Hc & Hp & Ht & Hu).
  fold s' in Hc, Hp, Ht, Hu.
  unfold MemStorage.getCategoryById, MemStorage.getPlaylistById,
    MemStorage.getTrackById, MemStorage.getUser.
  split; [|split; [|split]].
  - destruct (JSMap.get id (MemStorage.categories s)) as [row|] eqn:Hget;
      [|exact I].
    split.
    + now apply (ownChange_foreign _ _ _ _ _ _ _ _ (tidy_categories_below s H) Hc).
    + intros row'.
      now apply (ownChange_version _ _ _ _ _ _ _ _ _ (tidy_categories_below s H) Hc).
  - destruct (JSMap.get id (MemStorage.playlists s)) as [row|] eqn:Hget;
      [|exact I].
    split.
    + now apply (ownChange_foreign _ _ _ _ _ _ _ _ (tidy_playlists_below s H) Hp).
    + intros row'.
      now apply (ownChange_version _ _ _ _ _ _ _ _ _ (tidy_playlists_below s H) Hp).
  - destruct (JSMap.get id (MemStorage.tracks s)) as [row|] eqn:Hget;
      [|exact I].
    split.
    + now apply (ownChange_foreign _ _ _ _ _ _ _ _ (tidy_tracks_below s H) Ht).
    + intros row'.
      now apply (ownChange_version _ _ _ _ _ _ _ _ _ (tidy_tracks_below s H) Ht).
  - destruct (JSMap.get id (MemStorage.users s)) as [u|] eqn:Hget.
    + now apply (usersChange_spec user _ _ id u Hu).
    + now apply (usersChange_absent user _ _ id Hu).
Qed.

(** ** The store of the running server *)

Lemma In_values_set {V} k (v v' : V) m :
  In v' (JSMap.values (JSMap.set k v m)) -> v' = v \/ In v' (JSMap.values m).
Proof.
  intros Hin. apply In_values in Hin as (k' & Hin).
  apply In_set in Hin as [E|Hin].
  - left. now inversion E.
  - right. apply In_values. now exists k'.
Qed.

Lemma ownChange_owned {V} user (owner id : V -> Z) counter m m' :
  ownChange user owner id counter m m' ->
  Forall (fun v => owner v = user) (JSMap.values m) ->
  Forall (fun v => owner v = user) (JSMap.values m').
Proof.
  intros Hch Hall. rewrite Forall_forall in *.
  destruct Hch as [|v Hv|k old new Hold Ho Hn _|k old Hold Ho]; intros x Hx.
  - auto.
  - apply In_values_set in Hx as [->|Hx]; auto.
  - apply In_values_set in Hx as [->|Hx]; [congruence|auto].
  - apply Hall. apply In_values in Hx as (k' & Hx).
    apply filter_In in Hx as [Hx _]. apply In_values. now exists k'.
Qed.

Lemma usersChange_keys user m m' :
  usersChange user m m' -> JSMap.keys m' = JSMap.keys m.
Proof.
  intros [|old new Hold _ _]; [reflexivity|].
  now apply (keys_set_present user new old).
Qed.

Lemma deployed_storage : Deployed storage.
Proof. constructor; [reflexivity|repeat constructor..]. Qed.

Lemma deployed_registerRoutes req s :
  Deployed s -> Deployed (fst (Routes.registerRoutes req s)).
Proof.
  intros [Hu Hc Hp Ht]. unfold Routes.registerRoutes.
  destruct (handle_ownChange Routes.getUserFromSession req s)
    as (Hc' & Hp' & Ht' & Hu').
  constructor.
  - now rewrite (usersChange_keys _ _ _ Hu').
  - exact (ownChange_owned _ _ _ _ _ _ Hc' Hc).
  - exact (ownChange_owned _ _ _ _ _ _ Hp' Hp).
  - exact (ownChange_owned _ _ _ _ _ _ Ht' Ht).
Qed.

Lemma deployed_serve reqs s : Deployed s -> Deployed (serve reqs s).
Proof.
  revert s. induction reqs as [|req reqs IH]; intros s H; simpl; [exact H|].
  apply IH. now apply deployed_registerRoutes.
Qed.

(** X11. After any sequence of requests to the running server, whose session
    user is user 1 and whose store starts with the default data, user 1 is
    still the one stored user, so no two users share a username and
    [GET /users/me] answers 200; and every stored category, playlist and
    track belongs to user 1. *)
Theorem server_keeps_one_user (reqs : list Request) :
  let s := serve reqs storage in
  JSMap.keys (MemStorage.users s) = [1]
  /\ usernamesUnique s
  /\ status (snd (Routes.registerRoutes GetUsersMe s)) = 200
  /\ Forall (fun c => Category.userId c = 1)
            (JSMap.values (MemStorage.categories s))
  /\ Forall (fun p => Playlist.userId p = 1)
            (JSMap.values (MemStorage.playlists s))
  /\ Forall (fun t => Track.userId t = 1) (JSMap.values (MemStorage.tracks s)).
Proof.
  intros s.
  destruct (deployed_serve reqs storage deployed_storage) as [Hu Hc Hp Ht].
  fold s in Hu, Hc, Hp, Ht.
  assert (Hone : exists u, MemStorage.users s = [(1, u)]).
  { unfold JSMap.keys in Hu.
    destruct (MemStorage.users s) as [|[k u] [|e m]]; try discriminate.
    injection Hu as ->. now exists u. }
  destruct Hone as (u & Eu).
  split; [exact Hu|]. split; [|split; [|now repeat split]].
  - unfold usernamesUnique. rewrite Eu. simpl.
    constructor; [intros []|constructor].
  - unfold Routes.registerRoutes, Routes.handle, Routes.get_users_me,
      MemStorage.getUser. rewrite Eu. reflexivity.
Qed.
